(** * Grid game and choice game of the all-in-one suite

    A shallow embedding of the two stateful engines of
    [AIO_begginer_projects_refined.py], [TicTacToeGame] and
    [RockPaperScissorsGame], and the properties their specification states.

    Conventions of the embedding:
    - Python [int] is [Z], [str] is [string], a [list] is a [list], the
      [scores] dictionary is a [gmap string Z];
    - an exception is an explicit result [Raise e];
    - [input()] is an event [Line s] consumed by the engine, a call of
      [random.choice] is an event [Rand k] carrying the index drawn;
    - each engine is a transition system whose control points are the places
      where the Python code waits for such an event;
    - [print] output is kept only where a property speaks about it. *)

From stdpp Require Import gmap strings list fin_maps.
From Stdlib Require Import ZArith Lia Ascii DecimalString.

Local Open Scope string_scope.
Local Open Scope Z_scope.

(** ** Python values, exceptions and builtins *)

Module Python.

Inductive exn : Set := ValueError | IndexError | KeyError | EOFError.

Inductive result (A : Type) : Type :=
| Ok (a : A)
| Raise (e : exn).

Arguments Ok {A} a.
Arguments Raise {A} e.

Definition bind {A B : Type} (m : result A) (k : A -> result B) : result B :=
  match m with
  | Ok a => k a
  | Raise e => Raise e
  end.

Notation "'let*' x := m 'in' k" := (bind m (fun x => k))
  (at level 10, x name, m at level 100, k at level 200).

(** The builtins whose text processing the engines rely on: [int(s)]
    ([None] when it raises [ValueError]), [s.lower()] and [s.strip()]. *)
Class Builtins : Type := {
  py_int : string -> option Z;
  py_lower : string -> string;
  py_strip : string -> string
}.

(** [str(i)] for an integer. *)
Definition str (i : Z) : string := NilZero.string_of_int (Z.to_int i).

(** [range(a, b)]. *)
Definition range (a b : Z) : list Z :=
  map (fun k : nat => a + Z.of_nat k) (seq 0 (Z.to_nat (b - a))).

(** The position [seq[i]] denotes: a negative index counts from the end,
    an index outside [-len, len) raises [IndexError]. *)
Definition index {A : Type} (l : list A) (i : Z) : option nat :=
  let len := Z.of_nat (length l) in
  if (0 <=? i) && (i <? len) then Some (Z.to_nat i)
  else if (- len <=? i) && (i <? 0) then Some (Z.to_nat (len + i))
  else None.

(** [l[i]] *)
Definition getitem {A : Type} (l : list A) (i : Z) : result A :=
  match index l i with
  | Some k => match l !! k with Some x => Ok x | None => Raise IndexError end
  | None => Raise IndexError
  end.

(** [l[i] = x] *)
Definition setitem {A : Type} (l : list A) (i : Z) (x : A) : result (list A) :=
  match index l i with
  | Some k => Ok (<[k := x]> l)
  | None => Raise IndexError
  end.

(** [l.remove(x)]: drops the first occurrence, [ValueError] when there is
    none. *)
Fixpoint list_remove (x : Z) (l : list Z) : result (list Z) :=
  match l with
  | [] => Raise ValueError
  | y :: l' => if Z.eqb x y then Ok l' else (let* r := list_remove x l' in Ok (y :: r))
  end.

(** [x in l] *)
Definition contains (x : Z) (l : list Z) : bool := bool_decide (x ∈ l).

(** [s in l] for strings *)
Definition among (s : string) (l : list string) : bool := bool_decide (s ∈ l).

(** What the engines read: a line typed at a prompt, or the index drawn by
    [random.choice]. *)
Inductive event : Type :=
| Line (s : string)
| Rand (k : nat).

(** The truth value of an [Optional[str]] in a condition. *)
Definition truthy (r : option string) : bool :=
  match r with
  | Some v => negb (String.eqb v "")
  | None => false
  end.

(** *** Builtins on ASCII text, to run the engines on examples

    Upper-case letters are folded, the ASCII white space of [str.isspace]
    is stripped, and [int] reads an optional sign and decimal digits; on
    the lines of the examples below they answer as Python does. *)

Definition lower_char (a : ascii) : ascii :=
  let n := nat_of_ascii a in
  if (65 <=? n)%nat && (n <=? 90)%nat then ascii_of_nat (n + 32) else a.

Definition is_space (a : ascii) : bool :=
  let n := nat_of_ascii a in
  ((9 <=? n)%nat && (n <=? 13)%nat) || ((28 <=? n)%nat && (n <=? 32)%nat).

Fixpoint lstrip (l : list ascii) : list ascii :=
  match l with
  | a :: l' => if is_space a then lstrip l' else l
  | [] => []
  end.

Definition digit_of (a : ascii) : option Z :=
  let n := nat_of_ascii a in
  if (48 <=? n)%nat && (n <=? 57)%nat then Some (Z.of_nat n - 48) else None.

Fixpoint digits (acc : Z) (l : list ascii) : option Z :=
  match l with
  | [] => Some acc
  | a :: l' =>
      match digit_of a with
      | Some d => digits (10 * acc + d) l'
      | None => None
      end
  end.

Definition ascii_lower (s : string) : string :=
  String.string_of_list_ascii (map lower_char (String.list_ascii_of_string s)).

Definition ascii_strip (s : string) : string :=
  String.string_of_list_ascii (rev (lstrip (rev (lstrip (String.list_ascii_of_string s))))).

Definition ascii_int (s : string) : option Z :=
  match String.list_ascii_of_string (ascii_strip s) with
  | [] => None
  | "-"%char :: a :: l => option_map Z.opp (digits 0 (a :: l))
  | "+"%char :: a :: l => digits 0 (a :: l)
  | l => digits 0 l
  end.

Definition ascii_builtins : Builtins :=
  {| py_int := ascii_int; py_lower := ascii_lower; py_strip := ascii_strip |}.

End Python.

(** ** The shared input helper *)

Module Utility.
Import Python.

(** [get_yes_no_input], one pass of its loop: [None] when it asks again. *)
Definition get_yes_no_input_pass `{Builtins} (line : string) : option bool :=
  let response := py_strip (py_lower line) in
  if among response ["y"; "yes"] then Some true
  else if among response ["n"; "no"] then Some false
  else None.

End Utility.

(** ** The grid game: [class TicTacToeGame] *)

Module TicTacToe.
Import Python Utility.

Definition PLAYER_X : string := "X".
Definition PLAYER_O : string := "O".
Definition TIE_RESULT : string := "tie".

Record game : Type := {
  available_moves : list Z;
  current_player : string;
  board : list (list string)
}.

Definition create_board : list (list string) :=
  [ map str (range 1 4); map str (range 4 7); map str (range 7 10) ].

Definition reset_game : game :=
  {| available_moves := range 1 10;
     current_player := PLAYER_X;
     board := create_board |}.

(** [board[row][col]] *)
Definition cell (b : list (list string)) (row col : Z) : result string :=
  let* r := getitem b row in getitem r col.

(** [board[row][col] = v]: the row list is updated in place, the tuple of
    rows keeps its three list objects. *)
Definition set_cell (b : list (list string)) (row col : Z) (v : string)
  : result (list (list string)) :=
  let* r := getitem b row in
  let* r' := setitem r col v in
  setitem b row r'.

(** One pass through the body of the [while True] of [get_user_move]:
    [Return] when the move was accepted, [Again] when the prompt repeats. *)
Inductive pass : Type :=
| Return (s : game)
| Again (s : game).

Definition get_user_move_pass `{Builtins} (line : string) (s : game) : result pass :=
  match py_int line with
  | None => Ok (Again s)
  | Some user_move =>
      if contains user_move (available_moves s) then
        let row := (user_move - 1) / 3 in
        let col := (user_move - 1) mod 3 in
        let* b := set_cell (board s) row col (current_player s) in
        let s1 := {| available_moves := available_moves s;
                     current_player := current_player s;
                     board := b |} in
        match list_remove user_move (available_moves s) with
        | Ok am => Ok (Return {| available_moves := am;
                                 current_player := current_player s;
                                 board := b |})
        | Raise ValueError => Ok (Again s1)
        | Raise e => Raise e
        end
      else Ok (Again s)
  end.

(** [get_user_move] on the lines still to be read from standard input;
    [input()] raises [EOFError] when they run out. *)
Fixpoint get_user_move `{Builtins} (stdin : list string) (s : game)
  : result (game * list string) :=
  match stdin with
  | [] => Raise EOFError
  | line :: rest =>
      let* p := get_user_move_pass line s in
      match p with
      | Return s' => Ok (s', rest)
      | Again s' => get_user_move rest s'
      end
  end.

(** [get_ai_move], [k] being the index [random.choice] draws. *)
Definition get_ai_move (k : nat) (s : game) : result game :=
  match available_moves s !! k with
  | None => Raise IndexError
  | Some ai_move =>
      let row := (ai_move - 1) / 3 in
      let col := (ai_move - 1) mod 3 in
      let* b := set_cell (board s) row col (current_player s) in
      let* am := list_remove ai_move (available_moves s) in
      Ok {| available_moves := am;
            current_player := current_player s;
            board := b |}
  end.

(** [if a == b == c: return w], the comparison chain stopping at the first
    inequality. *)
Definition three_equal (a b c w : result string) : result (option string) :=
  let* x := a in
  let* y := b in
  if String.eqb x y then
    let* z := c in
    if String.eqb y z then (let* v := w in Ok (Some v)) else Ok None
  else Ok None.

(** A [for] loop whose body may return. *)
Fixpoint for_return {A : Type} (body : Z -> result (option A)) (l : list Z)
  : result (option A) :=
  match l with
  | [] => Ok None
  | i :: l' =>
      let* r := body i in
      match r with
      | Some v => Ok (Some v)
      | None => for_return body l'
      end
  end.

(** Falls through to [k] when the statement before did not return. *)
Definition or_else {A : Type} (m : result (option A)) (k : result (option A))
  : result (option A) :=
  let* r := m in
  match r with
  | Some v => Ok (Some v)
  | None => k
  end.

Definition check_win (s : game) : result (option string) :=
  let b := board s in
  or_else (for_return (fun i => three_equal (cell b i 0) (cell b i 1) (cell b i 2) (cell b i 0))
             (range 0 3))
 (or_else (for_return (fun i => three_equal (cell b 0 i) (cell b 1 i) (cell b 2 i) (cell b 0 i))
             (range 0 3))
 (or_else (three_equal (cell b 0 0) (cell b 1 1) (cell b 2 2) (cell b 0 0))
 (or_else (three_equal (cell b 0 2) (cell b 1 1) (cell b 2 0) (cell b 0 2))
   (match available_moves s with
    | [] => Ok (Some TIE_RESULT)
    | _ :: _ => Ok None
    end)))).

Definition switch_player (s : game) : game :=
  {| available_moves := available_moves s;
     current_player :=
       if String.eqb (current_player s) PLAYER_X then PLAYER_O else PLAYER_X;
     board := board s |}.

(** *** The loop of [play]

    Control points: the question about the automated opponent, the prompt
    of [get_user_move] (with the mode chosen), the draw of [get_ai_move],
    the rematch question, and the two ways the call ends. *)
Inductive pc : Type :=
| AskAI
| UserMove (ai_mode : bool)
| AIMove
| Rematch (ai_mode : bool)
| Finished
| Crashed (e : exn).

Definition config : Type := pc * game.

(** What a transition does to the board. *)
Inductive action : Type :=
| Placed (mark : string)
| NewGame
| Quiet.

(** From the call of [check_win] after a placement by [mark] to the next
    control point; [next] is where the loop goes on an undecided board once
    the player has been switched. *)
Definition after_move (ai_mode : bool) (mark : string) (s : game)
    (next : game -> pc) : action * config :=
  match check_win s with
  | Raise e => (Placed mark, (Crashed e, s))
  | Ok result =>
      if truthy result then (Placed mark, (Rematch ai_mode, s))
      else let s' := switch_player s in (Placed mark, (next s', s'))
  end.

(** An index beyond the list is no draw of [random.choice]; as for the
    empty list, the model answers it with [IndexError]. *)
Definition step `{Builtins} (c : config) (e : event) : option (action * config) :=
  let '(at_, s) := c in
  match at_, e with
  | AskAI, Line l =>
      match get_yes_no_input_pass l with
      | Some ai_mode => Some (Quiet, (UserMove ai_mode, s))
      | None => Some (Quiet, (AskAI, s))
      end
  | UserMove ai_mode, Line l =>
      match get_user_move_pass l s with
      | Raise e => Some (Quiet, (Crashed e, s))
      | Ok (Again s') => Some (Quiet, (UserMove ai_mode, s'))
      | Ok (Return s') =>
          Some (after_move ai_mode (current_player s) s'
                  (fun s'' => match ai_mode, available_moves s'' with
                              | true, _ :: _ => AIMove
                              | _, _ => UserMove ai_mode
                              end))
      end
  | AIMove, Rand k =>
      match get_ai_move k s with
      | Raise e => Some (Quiet, (Crashed e, s))
      | Ok s' => Some (after_move true (current_player s) s' (fun _ => UserMove true))
      end
  | Rematch ai_mode, Line l =>
      match get_yes_no_input_pass l with
      | Some true => Some (NewGame, (UserMove ai_mode, reset_game))
      | Some false => Some (Quiet, (Finished, s))
      | None => Some (Quiet, (Rematch ai_mode, s))
      end
  | _, _ => None
  end.

(** A run over a sequence of events, with the actions it performs. *)
Fixpoint run `{Builtins} (c : config) (es : list event)
  : option (list action * config) :=
  match es with
  | [] => Some ([], c)
  | e :: es' =>
      match step c e with
      | None => None
      | Some (a, c') =>
          match run c' es' with
          | None => None
          | Some (acts, c'') => Some (a :: acts, c'')
          end
      end
  end.

(** [play()] on a new [TicTacToeGame]. *)
Definition start : config := (AskAI, reset_game).

(** The states that legal placements and turn switches lead to from a
    fresh board. *)
Inductive reachable `{Builtins} : game -> Prop :=
| reach_fresh : reachable reset_game
| reach_user (line : string) (s s' : game) :
    reachable s -> get_user_move_pass line s = Ok (Return s') -> reachable s'
| reach_ai (k : nat) (s s' : game) :
    reachable s -> get_ai_move k s = Ok s' -> reachable s'
| reach_switch (s : game) :
    reachable s -> reachable (switch_player s).

(** *** The state invariant and the specification's reading of [evaluate] *)

Definition is_mark (c : string) : bool :=
  String.eqb c PLAYER_X || String.eqb c PLAYER_O.

(** The cell of position [n] shows its label while [n] is available and a
    mark once it is not. *)
Definition cell_ok (avail : list Z) (n : Z) (c : string) : bool :=
  if contains n avail then String.eqb c (str n) else is_mark c.

Definition wf (s : game) : bool :=
  let av := available_moves s in
  is_mark (current_player s)
  && bool_decide (NoDup av)
  && forallb (fun n => (1 <=? n) && (n <=? 9)) av
  && match board s with
     | [[c1; c2; c3]; [c4; c5; c6]; [c7; c8; c9]] =>
         cell_ok av 1 c1 && cell_ok av 2 c2 && cell_ok av 3 c3
         && cell_ok av 4 c4 && cell_ok av 5 c5 && cell_ok av 6 c6
         && cell_ok av 7 c7 && cell_ok av 8 c8 && cell_ok av 9 c9
     | _ => false
     end.

(** The content of the cell with position label [n] (the empty string off
    the board). *)
Definition at_position (b : list (list string)) (n : Z) : string :=
  match cell b ((n - 1) / 3) ((n - 1) mod 3) with
  | Ok c => c
  | Raise _ => ""
  end.

(** The eight lines by position label: rows, then columns, then
    diagonals. *)
Definition lines : list (Z * Z * Z) :=
  [ (1, 2, 3); (4, 5, 6); (7, 8, 9);
    (1, 4, 7); (2, 5, 8); (3, 6, 9);
    (1, 5, 9); (3, 5, 7) ].

(** A line holds three identical marks. *)
Definition holds_three (b : list (list string)) (l : Z * Z * Z) : option string :=
  let '(p, q, r) := l in
  let a := at_position b p in
  if is_mark a && String.eqb a (at_position b q)
     && String.eqb (at_position b q) (at_position b r)
  then Some a else None.

(** One mark fills the three cells of a line. *)
Definition fills (b : list (list string)) (l : Z * Z * Z) (m : string) : Prop :=
  let '(p, q, r) := l in
  at_position b p = m /\ at_position b q = m /\ at_position b r = m.

Fixpoint first_match {A B : Type} (f : A -> option B) (l : list A) : option B :=
  match l with
  | [] => None
  | x :: l' =>
      match f x with
      | Some y => Some y
      | None => first_match f l'
      end
  end.

(** [evaluate()] as the specification words it: the first line, in the
    fixed order, that holds three identical marks gives the winner; else
    tie when no move is available; else undecided. *)
Definition evaluate (s : game) : option string :=
  match first_match (holds_three (board s)) lines with
  | Some m => Some m
  | None =>
      match available_moves s with
      | [] => Some TIE_RESULT
      | _ :: _ => None
      end
  end.

(** What the specification asks of an accepted placement at position [n]:
    the mark of the player to move is written at row [(n-1) div 3], column
    [(n-1) mod 3], no other cell changes, [n] leaves the available moves,
    which lose exactly one element, and the player to move stays. *)
Definition placement (s : game) (n : Z) (s' : game) : Prop :=
  1 <= n <= 9
  /\ cell (board s') ((n - 1) / 3) ((n - 1) mod 3) = Ok (current_player s)
  /\ (forall r c, 0 <= r < 3 -> 0 <= c < 3 ->
       (r, c) <> ((n - 1) / 3, (n - 1) mod 3) ->
       cell (board s') r c = cell (board s) r c)
  /\ (n ∉ available_moves s')
  /\ (forall k, k <> n -> (k ∈ available_moves s' <-> k ∈ available_moves s))
  /\ length (available_moves s) = S (length (available_moves s'))
  /\ current_player s' = current_player s.

(** The mark of the placement that follows [k] earlier ones. *)
Definition mark_of_turn (k : nat) : string :=
  if Nat.even k then PLAYER_X else PLAYER_O.

(** [X; O; X; ...], [k] marks long. *)
Definition alternating (k : nat) : list string := map mark_of_turn (seq 0 k).

(** The marks placed since the board was last fresh, in order, [acc] being
    those placed before the actions [acts]. *)
Fixpoint marks_of_game (acts : list action) (acc : list string) : list string :=
  match acts with
  | [] => acc
  | Placed m :: acts' => marks_of_game acts' (acc ++ [m])
  | NewGame :: acts' => marks_of_game acts' []
  | Quiet :: acts' => marks_of_game acts' acc
  end.

(** The control points at which the game on the board is still open. *)
Definition in_game (at_ : pc) : bool :=
  match at_ with
  | AskAI | UserMove _ | AIMove => true
  | Rematch _ | Finished | Crashed _ => false
  end.

(** *** Turns *)

(** The other mark. *)
Definition other (m : string) : string :=
  if String.eqb m PLAYER_X then PLAYER_O else PLAYER_X.

(** What holds of a configuration of [play] and of the marks placed on its
    board so far: while the game is open, the marks are as many as the
    occupied cells and the player to move is the one whose turn it is. *)
Definition turn_inv (c : config) (marks : list string) : Prop :=
  wf (snd c) = true
  /\ marks = alternating (length marks)
  /\ (in_game (fst c) = true ->
      length marks = (9 - length (available_moves (snd c)))%nat
      /\ current_player (snd c) = mark_of_turn (length marks)).

(** What one transition of [play] does to the player to move.  A
    placement writes the mark of the player to move; when [check_win] finds
    the board undecided the game stays open and the player is switched
    once, and when it finds a winner or the tie the loop goes to the
    question about another game with the player as it was. *)
Definition turn_step (c : config) (a : action) (c' : config) : Prop :=
  match a with
  | Placed m =>
      m = current_player (snd c)
      /\ (check_win (snd c') = Ok None
          /\ in_game (fst c') = true
          /\ current_player (snd c') = other m /\ other m <> m
          \/ (exists r, check_win (snd c') = Ok (Some r)
                        /\ (r = PLAYER_X \/ r = PLAYER_O \/ r = TIE_RESULT))
             /\ (exists ai_mode, fst c' = Rematch ai_mode)
             /\ current_player (snd c') = m)
  | NewGame => snd c' = reset_game
  | Quiet => current_player (snd c') = current_player (snd c)
  end.

(** The sentence of the specification on turns, read literally: every
    completed placement is followed by a switch of the player to move. *)
Definition flips_on_every_placement `{Builtins} : Prop :=
  forall es acts c e m c',
    run start es = Some (acts, c) ->
    step c e = Some (Placed m, c') ->
    current_player (snd c') = other (current_player (snd c)).

(** A board on which X has filled the first row. *)
Definition first_row_x : game :=
  {| available_moves := [6; 7; 8; 9];
     current_player := PLAYER_X;
     board := [["X"; "X"; "X"]; ["O"; "O"; "6"]; ["7"; "8"; "9"]] |}.

End TicTacToe.

(** ** The choice game: [class RockPaperScissorsGame] *)

Module RockPaperScissors.
Import Python.

Definition ROCK : string := "rock".
Definition PAPER : string := "paper".
Definition SCISSORS : string := "scissors".

Record game : Type := {
  require_names : bool;
  two_player_mode : bool;
  has_names : bool;
  player1_name : string;
  player2_name : string;
  scores : gmap string Z
}.

Definition valid_choices : gmap string string :=
  list_to_map
    [ ("1", ROCK); ("rock", ROCK); ("r", ROCK);
      ("2", PAPER); ("paper", PAPER); ("p", PAPER);
      ("3", SCISSORS); ("scissors", SCISSORS); ("s", SCISSORS) ].

Definition menu_choices : list string := ["menu"; "main menu"].

Definition reset_settings (g : game) : game :=
  {| require_names := true;
     two_player_mode := false;
     has_names := false;
     player1_name := "Player 1";
     player2_name := "The Bot";
     scores := scores g |}.

(** The object [__init__] builds: the default settings, then both scores
    at 0. *)
Definition init : game :=
  {| require_names := true;
     two_player_mode := false;
     has_names := false;
     player1_name := "Player 1";
     player2_name := "The Bot";
     scores := <["Player 2" := 0]> (<["Player 1" := 0]> ∅) |}.

Definition set_scores (g : game) (sc : gmap string Z) : game :=
  {| require_names := require_names g;
     two_player_mode := two_player_mode g;
     has_names := has_names g;
     player1_name := player1_name g;
     player2_name := player2_name g;
     scores := sc |}.

(** [self.scores[key]] *)
Definition score (key : string) (g : game) : result Z :=
  match scores g !! key with
  | Some v => Ok v
  | None => Raise KeyError
  end.

(** [self.scores[key] += 1] *)
Definition add_score (key : string) (g : game) : result game :=
  let* v := score key g in
  Ok (set_scores g (<[key := v + 1]> (scores g))).

Definition newline : string := String (ascii_of_nat 10) "".

Definition print_scores (g : game) : result (list string) :=
  let* s1 := score "Player 1" g in
  let* s2 := score "Player 2" g in
  Ok [ newline ++ player1_name g ++ "'s score: " ++ str s1;
       player2_name g ++ "'s score: " ++ str s2 ].

Inductive outcome : Type := Tie | Player1Wins | Player2Wins.

(** The branch of [play_round] that determines the winner: which branch
    is taken, the line it prints, and the object after it. *)
Definition resolve_round (g : game) (player1_choice player2_choice : string)
  : result (outcome * string * game) :=
  if String.eqb player1_choice player2_choice then
    Ok (Tie, "It's a tie!", g)
  else if bool_decide ((player1_choice, player2_choice)
                         ∈ [(ROCK, SCISSORS); (SCISSORS, PAPER); (PAPER, ROCK)]) then
    let* g' := add_score "Player 1" g in
    Ok (Player1Wins, player1_name g ++ " wins!", g')
  else
    let* g' := add_score "Player 2" g in
    Ok (Player2Wins, player2_name g ++ " wins!", g').

(** Control points: the prompt of each menu, the two name prompts and the
    pause of [get_player_names], the prompts of [get_player_choice] for
    either player ([Choice2] and [BotDraw] hold player 1's choice, a local
    of [play_round]), the pause after a round, and the ways [play] ends. *)
Inductive pc : Type :=
| MainMenu
| Settings
| NameP1
| NameP2
| NamesPause
| Choice1
| Choice2 (player1_choice : string)
| BotDraw (player1_choice : string)
| RoundPause
| PostRound
| Exit
| Crashed (e : exn).

Definition config : Type := pc * game.

Inductive action : Type :=
| Resolved (o : outcome) (message : string)
| Quiet.

(** [pre_game], up to its first prompt. *)
Definition pre_game (g : game) : config :=
  if require_names g && negb (has_names g) then (NameP1, g) else (Choice1, g).

(** [after_game_menu], up to its prompt. *)
Definition after_game_menu (g : game) : config :=
  match print_scores g with
  | Ok _ => (PostRound, g)
  | Raise e => (Crashed e, g)
  end.

(** [play_round] from the point where both choices are known to the pause
    before the menu. *)
Definition finish_round (g : game) (player1_choice player2_choice : string)
  : action * config :=
  match resolve_round g player1_choice player2_choice with
  | Raise e => (Quiet, (Crashed e, g))
  | Ok (o, message, g') =>
      match print_scores g' with
      | Ok _ => (Resolved o message, (RoundPause, g'))
      | Raise e => (Resolved o message, (Crashed e, g'))
      end
  end.

(** [play_round] after player 1 has chosen. *)
Definition second_choice (g : game) (player1_choice : string) : config :=
  if two_player_mode g then (Choice2 player1_choice, g)
  else (BotDraw player1_choice, g).

Definition set_player1_name (g : game) (name : string) : game :=
  {| require_names := require_names g;
     two_player_mode := two_player_mode g;
     has_names := has_names g;
     player1_name := name;
     player2_name := player2_name g;
     scores := scores g |}.

Definition set_player2_name (g : game) (name : string) : game :=
  {| require_names := require_names g;
     two_player_mode := two_player_mode g;
     has_names := has_names g;
     player1_name := player1_name g;
     player2_name := name;
     scores := scores g |}.

Definition set_has_names (g : game) (b : bool) : game :=
  {| require_names := require_names g;
     two_player_mode := two_player_mode g;
     has_names := b;
     player1_name := player1_name g;
     player2_name := player2_name g;
     scores := scores g |}.

(** The first branch of [settings_menu]. *)
Definition toggle_require_names (g : game) : game :=
  {| require_names := negb (require_names g);
     two_player_mode := two_player_mode g;
     has_names := false;
     player1_name := player1_name g;
     player2_name := player2_name g;
     scores := scores g |}.

(** The second branch of [settings_menu]. *)
Definition toggle_two_player_mode (g : game) : game :=
  let two := negb (two_player_mode g) in
  {| require_names := require_names g;
     two_player_mode := two;
     has_names := has_names g;
     player1_name := player1_name g;
     player2_name :=
       if two && negb (require_names g) then "Player 2" else "The Bot";
     scores := scores g |}.

(** Every call of one method by another is the last thing the caller does,
    so a [return] of [main_menu] or [after_game_menu] ends [play]: control
    point [Exit].  The depth of the Python call stack, which these calls
    grow, is not part of the model. *)
Definition step `{Builtins} (c : config) (e : event) : option (action * config) :=
  let '(at_, g) := c in
  match at_, e with
  | MainMenu, Line l =>
      let choice := py_strip (py_lower l) in
      if among choice ["1"; "new game"; "n"] then Some (Quiet, pre_game g)
      else if among choice ["2"; "settings"; "s"] then Some (Quiet, (Settings, g))
      else if among choice (["3"; "back to main menu"; "b"] ++ menu_choices)
      then Some (Quiet, (Exit, g))
      else Some (Quiet, (MainMenu, g))
  | NameP1, Line l =>
      let g1 := set_player1_name g (py_strip l) in
      if among (py_lower (player1_name g1)) menu_choices then Some (Quiet, (MainMenu, g1))
      else if two_player_mode g1 then Some (Quiet, (NameP2, g1))
      else Some (Quiet, (NamesPause, g1))
  | NameP2, Line l =>
      let g1 := set_player2_name g (py_strip l) in
      if among (py_lower (player2_name g1)) menu_choices then Some (Quiet, (MainMenu, g1))
      else Some (Quiet, (NamesPause, g1))
  | NamesPause, Line _ => Some (Quiet, (Choice1, set_has_names g true))
  | Choice1, Line l =>
      let choice := py_strip (py_lower l) in
      match valid_choices !! choice with
      | Some player1_choice => Some (Quiet, second_choice g player1_choice)
      | None =>
          if among choice menu_choices then Some (Quiet, (MainMenu, g))
          else Some (Quiet, (Choice1, g))
      end
  | Choice2 player1_choice, Line l =>
      let choice := py_strip (py_lower l) in
      match valid_choices !! choice with
      | Some player2_choice => Some (finish_round g player1_choice player2_choice)
      | None =>
          if among choice menu_choices then Some (Quiet, (MainMenu, g))
          else Some (Quiet, (Choice2 player1_choice, g))
      end
  | BotDraw player1_choice, Rand k =>
      match [ROCK; PAPER; SCISSORS] !! k with
      | Some player2_choice => Some (finish_round g player1_choice player2_choice)
      | None => None
      end
  | RoundPause, Line _ => Some (Quiet, after_game_menu g)
  | PostRound, Line l =>
      let choice := py_strip (py_lower l) in
      if among choice ["1"; "play again"; "p"] then Some (Quiet, (Choice1, g))
      else if among choice ["2"; "rock-paper-scissors menu"; "r"]
      then Some (Quiet, (MainMenu, g))
      else if among choice (["3"; "back to main menu"; "b"] ++ menu_choices)
      then Some (Quiet, (Exit, g))
      else Some (Quiet, after_game_menu g)
  | Settings, Line l =>
      let choice := py_strip (py_lower l) in
      if among choice ["1"; "require names"; "n"]
      then Some (Quiet, (Settings, toggle_require_names g))
      else if among choice ["2"; "two player mode"; "t"]
      then Some (Quiet, (Settings, toggle_two_player_mode g))
      else if among choice ["3"; "reset to default settings"; "d"]
      then Some (Quiet, (Settings, reset_settings g))
      else if among choice ["4"; "back to rock-paper-scissors menu"; "b"]
      then Some (Quiet, (MainMenu, g))
      else Some (Quiet, (Settings, g))
  | _, _ => None
  end.

Fixpoint run `{Builtins} (c : config) (es : list event)
  : option (list action * config) :=
  match es with
  | [] => Some ([], c)
  | e :: es' =>
      match step c e with
      | None => None
      | Some (a, c') =>
          match run c' es' with
          | None => None
          | Some (acts, c'') => Some (a :: acts, c'')
          end
      end
  end.

(** [play()] on a new [RockPaperScissorsGame]. *)
Definition start : config := (MainMenu, init).

(** *** Specification-level definitions *)

(** The three choices and the fixed beats relation. *)
Definition choices : list string := [ROCK; PAPER; SCISSORS].
Definition beats : list (string * string) :=
  [(ROCK, SCISSORS); (SCISSORS, PAPER); (PAPER, ROCK)].

Definition gain (o w : outcome) : Z :=
  match o, w with
  | Player1Wins, Player1Wins | Player2Wins, Player2Wins => 1
  | _, _ => 0
  end.

(** Both keys of the score dictionary are present. *)
Definition has_scores (g : game) : Prop :=
  is_Some (scores g !! "Player 1") /\ is_Some (scores g !! "Player 2").

(** The sentence of the specification on the settings reset: it puts both
    scores back to 0. *)
Definition scores_reset_by_settings : Prop :=
  forall g, scores (reset_settings g) !! "Player 1" = Some 0
            /\ scores (reset_settings g) !! "Player 2" = Some 0.

(** The sentence of the specification on the third option of the menu
    after a round: it leads to the main menu of the game. *)
Definition top_menu_option_to_main_menu `{Builtins} : Prop :=
  forall g line,
    py_strip (py_lower line) ∈ ["3"; "back to main menu"; "b"] ->
    step (PostRound, g) (Line line) = Some (Quiet, (MainMenu, g)).

(** The change of the score dictionary that goes with an outcome. *)
Definition credited (o : outcome) (sc sc' : gmap string Z) : Prop :=
  match o with
  | Tie => sc' = sc
  | Player1Wins => exists v, sc !! "Player 1" = Some v /\ sc' = <["Player 1" := v + 1]> sc
  | Player2Wins => exists v, sc !! "Player 2" = Some v /\ sc' = <["Player 2" := v + 1]> sc
  end.

Definition scores_ok (g : game) : Prop :=
  exists v1 v2, scores g !! "Player 1" = Some v1 /\ scores g !! "Player 2" = Some v2
                /\ 0 <= v1 /\ 0 <= v2.

(** What one transition of [play] does to the scores: only the resolution
    of a round, at the prompt or the draw for the second choice, changes
    them. *)
Definition score_step (c : config) (a : action) (c' : config) : Prop :=
  match a with
  | Quiet => scores (snd c') = scores (snd c)
  | Resolved o _ =>
      credited o (scores (snd c)) (scores (snd c'))
      /\ exists player1_choice, fst c = Choice2 player1_choice \/ fst c = BotDraw player1_choice
  end.

(** The control points that wait for a line of input. *)
Definition prompt (at_ : pc) : bool :=
  match at_ with
  | MainMenu | Settings | NameP1 | NameP2 | NamesPause | Choice1 | Choice2 _
  | RoundPause | PostRound => true
  | BotDraw _ | Exit | Crashed _ => false
  end.

(** The sentence of the specification on the menu word: at every prompt
    it leads to the main menu, the object staying as it was. *)
Definition menu_word_everywhere `{Builtins} : Prop :=
  forall at_ g line,
    prompt at_ = true ->
    py_strip (py_lower line) ∈ menu_choices ->
    step (at_, g) (Line line) = Some (Quiet, (MainMenu, g)).

End RockPaperScissors.

(** ** The input validators and [random.randint] *)

Module Validation.
Import Python Utility.

(** [bound is not None and n < bound] *)
Definition below (bound : option Z) (n : Z) : bool :=
  match bound with
  | Some m => n <? m
  | None => false
  end.

(** [bound is not None and n > bound] *)
Definition above (bound : option Z) (n : Z) : bool :=
  match bound with
  | Some m => m <? n
  | None => false
  end.

(** [validate_integer_input] on the lines still to be read: a line that is
    no integer ([ValueError], caught) or lies outside a bound is answered
    with a message and the prompt repeats; the messages are not kept. *)
Fixpoint validate_integer_input `{Builtins} (min_value max_value : option Z)
    (stdin : list string) : result (Z * list string) :=
  match stdin with
  | [] => Raise EOFError
  | line :: rest =>
      match py_int line with
      | None => validate_integer_input min_value max_value rest
      | Some user_input =>
          if below min_value user_input
          then validate_integer_input min_value max_value rest
          else if above max_value user_input
          then validate_integer_input min_value max_value rest
          else Ok (user_input, rest)
      end
  end.

(** [get_yes_no_input] on the lines still to be read. *)
Fixpoint get_yes_no_input `{Builtins} (stdin : list string)
  : result (bool * list string) :=
  match stdin with
  | [] => Raise EOFError
  | line :: rest =>
      match get_yes_no_input_pass line with
      | Some answer => Ok (answer, rest)
      | None => get_yes_no_input rest
      end
  end.

(** [random.randint(a, b)], which is [a + randbelow(b - a + 1)]: [k] is
    the value [randbelow] draws, and an empty range is a [ValueError]. *)
Definition randint (a b : Z) (k : nat) : result Z :=
  if b <? a then Raise ValueError else Ok (a + Z.of_nat k).

(** [k] is a value that [randbelow(b - a + 1)] can draw. *)
Definition drawn (a b : Z) (k : nat) : Prop := Z.of_nat k <= b - a.

(** A line that [validate_integer_input] answers with a new prompt. *)
Definition refused `{Builtins} (min_value max_value : option Z) (line : string) : Prop :=
  match py_int line with
  | None => True
  | Some n => below min_value n = true \/ above max_value n = true
  end.

(** A line that [get_yes_no_input] answers with a new prompt. *)
Definition unclear `{Builtins} (line : string) : Prop :=
  get_yes_no_input_pass line = None.

End Validation.

(** ** The number guessing game: [class NumberGuessingGame] *)

Module NumberGuessing.
Import Python Utility Validation.

Record game : Type := {
  min_num : Z;
  max_num : Z;
  attempts : Z;
  target_number : option Z;
  guesses : list Z
}.

(** The object [__init__] builds. *)
Definition init : game :=
  {| min_num := 1; max_num := 100; attempts := 5;
     target_number := None; guesses := [] |}.

(** Besides the exceptions of the builtins: the comparison of an integer
    with [None], and the use of a loop variable that was never bound. *)
Inductive error : Type :=
| Exn (e : exn)
| TypeError
| UnboundLocalError.

Inductive outcome (A : Type) : Type :=
| Done (a : A)
| Fail (e : error).

Arguments Done {A} a.
Arguments Fail {A} e.

Definition lift {A : Type} (r : result A) : outcome A :=
  match r with
  | Ok a => Done a
  | Raise e => Fail (Exn e)
  end.

Definition and_then {A B : Type} (m : outcome A) (k : A -> outcome B) : outcome B :=
  match m with
  | Done a => k a
  | Fail e => Fail e
  end.

Notation "'let+' x := m 'in' k" := (and_then m (fun x => k))
  (at level 10, x name, m at level 100, k at level 200).

(** [setup_game], [k] being the draw of [random.randint]. *)
Definition setup_game `{Builtins} (g : game) (stdin : list string) (k : nat)
  : result (game * list string) :=
  let* r1 := validate_integer_input (Some 1) None stdin in
  let* r2 := validate_integer_input None None (snd r1) in
  let* r3 := validate_integer_input None (Some (fst r2)) (snd r2) in
  let* target := randint (fst r3) (fst r2) k in
  Ok ({| min_num := fst r3; max_num := fst r2; attempts := fst r1;
         target_number := Some target; guesses := [] |}, snd r3).

Definition get_guess `{Builtins} (g : game) (stdin : list string)
  : result (Z * list string) :=
  validate_integer_input (Some (min_num g)) (Some (max_num g)) stdin.

(** The lines [check_guess] prints. *)
Inductive hint : Type := Correct | TooLow | TooHigh.

(** [check_guess]: with no target yet, [guess == None] is false and
    [guess < None] a [TypeError]. *)
Definition check_guess (g : game) (guess : Z) : outcome (bool * hint) :=
  match target_number g with
  | None => Fail TypeError
  | Some target =>
      if guess =? target then Done (true, Correct)
      else Done (false, if guess <? target then TooLow else TooHigh)
  end.

Definition append_guess (g : game) (guess : Z) : game :=
  {| min_num := min_num g; max_num := max_num g; attempts := attempts g;
     target_number := target_number g; guesses := guesses g ++ [guess] |}.

(** The [for attempt_num in ...] loop of [play] over the attempt numbers
    still to come; [last] is the value [attempt_num] is bound to, if any.
    It gives the object, [attempt_num], [win] and the lines left. *)
Fixpoint guess_loop `{Builtins} (g : game) (attempt_nums : list Z) (last : option Z)
    (stdin : list string) : outcome (game * option Z * bool * list string) :=
  match attempt_nums with
  | [] => Done (g, last, false, stdin)
  | attempt_num :: more =>
      let+ r := lift (get_guess g stdin) in
      let g1 := append_guess g (fst r) in
      let+ c := check_guess g1 (fst r) in
      if fst c then Done (g1, Some attempt_num, true, snd r)
      else guess_loop g1 more (Some attempt_num) (snd r)
  end.

(** What [print_summary] prints. *)
Record summary : Type := {
  won : bool;
  target : option Z;
  attempts_used : Z;
  your_guesses : list Z;
  even_guesses : list Z;
  odd_guesses : list Z
}.

Definition print_summary (g : game) (attempt : Z) (win : bool) : summary :=
  {| won := win;
     target := target_number g;
     attempts_used := attempt;
     your_guesses := guesses g;
     even_guesses := List.filter (fun x => x mod 2 =? 0) (guesses g);
     odd_guesses := List.filter (fun x => negb (x mod 2 =? 0)) (guesses g) |}.

(** One pass through the [while True] of [play], up to the answer to the
    question whether to play again. *)
Definition play_pass `{Builtins} (g : game) (stdin : list string) (k : nat)
  : outcome (summary * game * bool * list string) :=
  let+ r := lift (setup_game g stdin k) in
  let g1 := fst r in
  let+ l := guess_loop g1 (range 1 (attempts g1 + 1)) None (snd r) in
  let '(g2, attempt_num, win, rest) := l in
  match attempt_num with
  | None => Fail UnboundLocalError
  | Some attempt =>
      let+ a := lift (get_yes_no_input rest) in
      Done (print_summary g2 attempt win, g2, fst a, snd a)
  end.

End NumberGuessing.

(** ** The dice roller: [class DiceRoller] *)

Module DiceRoller.
Import Python Utility Validation.

Definition MIN_DICE_SIDES : Z := 2.

(** One pass through the [while True] of [play]: the number of sides, the
    roll and the answer to the question whether to roll again, or the
    [ValueError] that the [except] clause catches before the next pass. *)
Inductive pass : Type :=
| Rolled (sides roll : Z) (again : bool) (rest : list string)
| Caught (rest : list string).

Definition play_pass `{Builtins} (stdin : list string) (k : nat) : result pass :=
  let* r := validate_integer_input (Some MIN_DICE_SIDES) None stdin in
  match randint 1 (fst r) k with
  | Raise ValueError => Ok (Caught (snd r))
  | Raise e => Raise e
  | Ok roll =>
      let* a := get_yes_no_input (snd r) in
      Ok (Rolled (fst r) roll (fst a) (snd a))
  end.

End DiceRoller.

(** ** More on the loop of the grid game *)

Module TicTacToeExtra.
Import Python Utility TicTacToe.

(** The draw of an event is one [random.choice] can make. *)
Definition draw_ok (c : config) (e : event) : bool :=
  match fst c, e with
  | AIMove, Rand k => (k <? length (available_moves (snd c)))%nat
  | _, _ => true
  end.

Fixpoint draws_ok `{Builtins} (c : config) (es : list event) : bool :=
  match es with
  | [] => true
  | e :: es' =>
      draw_ok c e
      && match step c e with
         | Some (_, c') => draws_ok c' es'
         | None => true
         end
  end.

(** [check_win] gives a winner or the tie. *)
Definition decided (s : game) : Prop :=
  exists r, check_win s = Ok (Some r)
            /\ (r = PLAYER_X \/ r = PLAYER_O \/ r = TIE_RESULT).

(** No line holds three identical marks. *)
Definition no_line (b : list (list string)) : Prop :=
  forall l, l ∈ lines -> holds_three b l = None.

(** What holds at each control point of [play] on a new object, [marks]
    being the marks placed on the board so far. *)
Definition play_inv (c : config) (marks : list string) : Prop :=
  let s := snd c in
  wf s = true
  /\ length marks = (9 - length (available_moves s))%nat
  /\ match fst c with
     | AskAI => s = reset_game
     | UserMove ai_mode =>
         no_line (board s) /\ (ai_mode = true -> current_player s = PLAYER_X)
     | AIMove =>
         no_line (board s) /\ current_player s = PLAYER_O
         /\ available_moves s <> []
     | Rematch _ | Finished => decided s
     | Crashed _ => True
     end.

(** A later call of [play] on the same object: nothing resets it. *)
Definition resume (s : game) : config := (AskAI, s).

(** A full board without a complete line. *)
Definition drawn_board : game :=
  {| available_moves := [];
     current_player := PLAYER_X;
     board := [["X"; "O"; "X"]; ["X"; "O"; "O"]; ["O"; "X"; "X"]] |}.

(** A line that [get_user_move] answers with a new prompt. *)
Definition declined `{Builtins} (s : game) (line : string) : Prop :=
  py_int line = None
  \/ exists n, py_int line = Some n /\ n ∉ available_moves s.

End TicTacToeExtra.

(** ** More on the choice game *)

Module RockPaperScissorsExtra.
Import Python RockPaperScissors.

(** The rounds of a run that ended with outcome [o]. *)
Fixpoint rounds (o : outcome) (acts : list action) : Z :=
  match acts with
  | [] => 0
  | Resolved o' _ :: acts' =>
      (match o, o' with
       | Tie, Tie | Player1Wins, Player1Wins | Player2Wins, Player2Wins => 1
       | _, _ => 0
       end) + rounds o acts'
  | Quiet :: acts' => rounds o acts'
  end.

(** The choice of participant 1 that a control point holds is one of the
    three. *)
Definition choice_held (at_ : pc) : Prop :=
  match at_ with
  | Choice2 player1_choice | BotDraw player1_choice => player1_choice ∈ choices
  | _ => True
  end.

(** The prompts for participant 2 belong to the two-player mode, the draw
    to the one-player mode. *)
Definition mode_held (c : config) : Prop :=
  match fst c with
  | Choice2 _ | NameP2 => two_player_mode (snd c) = true
  | BotDraw _ => two_player_mode (snd c) = false
  | _ => True
  end.

End RockPaperScissorsExtra.

(** ** Properties of the grid game *)

Module TicTacToeProps.
Import Python Utility TicTacToe.

Lemma range_0_3 : range 0 3 = [0; 1; 2].
Proof. reflexivity. Qed.

Lemma contains_true (x : Z) (l : list Z) : contains x l = true <-> x ∈ l.
Proof. unfold contains. apply bool_decide_eq_true. Qed.

Lemma contains_false (x : Z) (l : list Z) : contains x l = false <-> x ∉ l.
Proof. unfold contains. apply bool_decide_eq_false. Qed.

Lemma is_mark_spec (c : string) :
  is_mark c = true <-> c = PLAYER_X \/ c = PLAYER_O.
Proof.
  unfold is_mark. rewrite orb_true_iff, !String.eqb_eq. tauto.
Qed.

(** A board of the right shape, opened into its nine cells. *)
Lemma wf_cells (s : game) :
  wf s = true ->
  exists c1 c2 c3 c4 c5 c6 c7 c8 c9 : string,
    board s = [[c1; c2; c3]; [c4; c5; c6]; [c7; c8; c9]]
    /\ cell_ok (available_moves s) 1 c1 = true
    /\ cell_ok (available_moves s) 2 c2 = true
    /\ cell_ok (available_moves s) 3 c3 = true
    /\ cell_ok (available_moves s) 4 c4 = true
    /\ cell_ok (available_moves s) 5 c5 = true
    /\ cell_ok (available_moves s) 6 c6 = true
    /\ cell_ok (available_moves s) 7 c7 = true
    /\ cell_ok (available_moves s) 8 c8 = true
    /\ cell_ok (available_moves s) 9 c9 = true.
Proof.
  unfold wf. intros H.
  apply andb_true_iff in H as [_ H].
  repeat match type of H with
         | context [match ?l with [] => _ | _ :: _ => _ end] =>
             destruct l; try discriminate H
         end.
  repeat (apply andb_true_iff in H as [H ?]).
  do 9 eexists. repeat split; eassumption.
Qed.

Lemma wf_facts (s : game) :
  wf s = true ->
  is_mark (current_player s) = true
  /\ NoDup (available_moves s)
  /\ (forall n, n ∈ available_moves s -> 1 <= n <= 9).
Proof.
  unfold wf. intros H.
  repeat (apply andb_true_iff in H as [H ?]).
  split; [assumption|]. split.
  - eapply bool_decide_eq_true; eassumption.
  - intros n Hn. rewrite forallb_forall in H1.
    apply list_elem_of_In in Hn. apply H1 in Hn. lia.
Qed.

(** Two cells of different positions that show the same text show a mark:
    the labels are pairwise distinct. *)
Lemma equal_cells_mark (av : list Z) (n m : Z) (a b : string) :
  cell_ok av n a = true -> cell_ok av m b = true ->
  String.eqb (str n) (str m) = false ->
  a = b -> is_mark a = true.
Proof.
  unfold cell_ok. intros Ha Hb Hnm <-.
  destruct (contains n av); [|assumption].
  destruct (contains m av); [|assumption].
  apply String.eqb_eq in Ha, Hb. rewrite <- Ha, <- Hb in Hnm.
  rewrite String.eqb_refl in Hnm. discriminate.
Qed.

Lemma three_cells (av : list Z) (n m : Z) (a b c : string) :
  cell_ok av n a = true -> cell_ok av m b = true ->
  String.eqb (str n) (str m) = false ->
  is_mark a && String.eqb a b && String.eqb b c
  = String.eqb a b && String.eqb b c.
Proof.
  intros Ha Hb Hnm.
  destruct (String.eqb_spec a b) as [E|E]; [|now rewrite andb_false_r].
  rewrite (equal_cells_mark av n m a b Ha Hb Hnm E). reflexivity.
Qed.

Lemma check_win_cells (av : list Z) (cp : string) (c1 c2 c3 c4 c5 c6 c7 c8 c9 : string) :
  check_win {| available_moves := av; current_player := cp;
               board := [[c1; c2; c3]; [c4; c5; c6]; [c7; c8; c9]] |}
  = Ok (if String.eqb c1 c2 && String.eqb c2 c3 then Some c1
        else if String.eqb c4 c5 && String.eqb c5 c6 then Some c4
        else if String.eqb c7 c8 && String.eqb c8 c9 then Some c7
        else if String.eqb c1 c4 && String.eqb c4 c7 then Some c1
        else if String.eqb c2 c5 && String.eqb c5 c8 then Some c2
        else if String.eqb c3 c6 && String.eqb c6 c9 then Some c3
        else if String.eqb c1 c5 && String.eqb c5 c9 then Some c1
        else if String.eqb c3 c5 && String.eqb c5 c7 then Some c3
        else match av with [] => Some TIE_RESULT | _ :: _ => None end).
Proof.
  cbv -[String.eqb TIE_RESULT].
  repeat match goal with
         | |- context [String.eqb ?a ?b] => destruct (String.eqb a b)
         end; try reflexivity; destruct av; reflexivity.
Qed.

Lemma at_position_cells (c1 c2 c3 c4 c5 c6 c7 c8 c9 : string) :
  let b := [[c1; c2; c3]; [c4; c5; c6]; [c7; c8; c9]] in
  at_position b 1 = c1 /\ at_position b 2 = c2 /\ at_position b 3 = c3
  /\ at_position b 4 = c4 /\ at_position b 5 = c5 /\ at_position b 6 = c6
  /\ at_position b 7 = c7 /\ at_position b 8 = c8 /\ at_position b 9 = c9.
Proof. repeat split; reflexivity. Qed.

Lemma evaluate_cells (av : list Z) (cp : string) (c1 c2 c3 c4 c5 c6 c7 c8 c9 : string) :
  evaluate {| available_moves := av; current_player := cp;
              board := [[c1; c2; c3]; [c4; c5; c6]; [c7; c8; c9]] |}
  = (if is_mark c1 && String.eqb c1 c2 && String.eqb c2 c3 then Some c1
     else if is_mark c4 && String.eqb c4 c5 && String.eqb c5 c6 then Some c4
     else if is_mark c7 && String.eqb c7 c8 && String.eqb c8 c9 then Some c7
     else if is_mark c1 && String.eqb c1 c4 && String.eqb c4 c7 then Some c1
     else if is_mark c2 && String.eqb c2 c5 && String.eqb c5 c8 then Some c2
     else if is_mark c3 && String.eqb c3 c6 && String.eqb c6 c9 then Some c3
     else if is_mark c1 && String.eqb c1 c5 && String.eqb c5 c9 then Some c1
     else if is_mark c3 && String.eqb c3 c5 && String.eqb c5 c7 then Some c3
     else match av with [] => Some TIE_RESULT | _ :: _ => None end).
Proof.
  destruct (at_position_cells c1 c2 c3 c4 c5 c6 c7 c8 c9)
    as (E1 & E2 & E3 & E4 & E5 & E6 & E7 & E8 & E9).
  unfold evaluate, lines. cbn [board available_moves first_match holds_three].
  rewrite E1, E2, E3, E4, E5, E6, E7, E8, E9.
  repeat match goal with
         | |- context [if ?c then Some _ else None] => destruct c; [reflexivity|]
         end.
  reflexivity.
Qed.

(** On the states of a game [check_win] computes what the specification
    says of [evaluate]. *)
Lemma check_win_refines (s : game) :
  wf s = true -> check_win s = Ok (evaluate s).
Proof.
  intros H. destruct (wf_cells s H)
    as (c1 & c2 & c3 & c4 & c5 & c6 & c7 & c8 & c9 & Hb
        & H1 & H2 & H3 & H4 & H5 & H6 & H7 & H8 & H9).
  destruct s as [av cp b]. simpl in *. subst b.
  rewrite check_win_cells, evaluate_cells.
  rewrite (three_cells av 1 2 c1 c2 c3 H1 H2 eq_refl).
  rewrite (three_cells av 4 5 c4 c5 c6 H4 H5 eq_refl).
  rewrite (three_cells av 7 8 c7 c8 c9 H7 H8 eq_refl).
  rewrite (three_cells av 1 4 c1 c4 c7 H1 H4 eq_refl).
  rewrite (three_cells av 2 5 c2 c5 c8 H2 H5 eq_refl).
  rewrite (three_cells av 3 6 c3 c6 c9 H3 H6 eq_refl).
  rewrite (three_cells av 1 5 c1 c5 c9 H1 H5 eq_refl).
  rewrite (three_cells av 3 5 c3 c5 c7 H3 H5 eq_refl).
  reflexivity.
Qed.

Lemma first_match_only {A B : Type} `{EqDecision A} (f : A -> option B) (l : list A) (x : A) (y : B) :
  x ∈ l -> f x = Some y ->
  (forall x', x' ∈ l -> x' <> x -> f x' = None) ->
  first_match f l = Some y.
Proof.
  induction l as [|a l IH]; intros Hin Hx Hothers.
  - apply elem_of_nil in Hin. contradiction.
  - simpl. destruct (f a) as [b|] eqn:Ea.
    + destruct (decide (a = x)) as [->|Hne].
      * congruence.
      * rewrite (Hothers a) in Ea; [discriminate| |assumption].
        apply elem_of_cons. now left.
    + apply elem_of_cons in Hin as [->|Hin]; [congruence|].
      apply IH; auto. intros x' Hx' Hne. apply Hothers; auto. now right.
Qed.

Lemma first_match_none {A B : Type} (f : A -> option B) (l : list A) :
  (forall x, x ∈ l -> f x = None) -> first_match f l = None.
Proof.
  induction l as [|a l IH]; intros Hnone; [reflexivity|].
  simpl. rewrite (Hnone a) by (apply elem_of_cons; now left).
  apply IH. intros x Hx. apply Hnone. apply elem_of_cons. now right.
Qed.

Lemma str_not_mark (n : Z) : 1 <= n <= 9 -> is_mark (str n) = false.
Proof.
  intros Hn.
  assert (n = 1 \/ n = 2 \/ n = 3 \/ n = 4 \/ n = 5 \/ n = 6 \/ n = 7
          \/ n = 8 \/ n = 9) as Hc by lia.
  repeat (destruct Hc as [->|Hc]; [reflexivity|]). subst n. reflexivity.
Qed.

(** What the cell of a position shows in a state of a game. *)
Lemma wf_at_position (s : game) (n : Z) :
  wf s = true -> 1 <= n <= 9 ->
  cell_ok (available_moves s) n (at_position (board s) n) = true.
Proof.
  intros H Hn. destruct (wf_cells s H)
    as (c1 & c2 & c3 & c4 & c5 & c6 & c7 & c8 & c9 & Hb
        & H1 & H2 & H3 & H4 & H5 & H6 & H7 & H8 & H9).
  rewrite Hb.
  assert (n = 1 \/ n = 2 \/ n = 3 \/ n = 4 \/ n = 5 \/ n = 6 \/ n = 7
          \/ n = 8 \/ n = 9) as Hc by lia.
  repeat (destruct Hc as [->|Hc]; [assumption|]). subst n. assumption.
Qed.

(** When every cell is occupied no move is available. *)
Lemma full_board_no_moves (s : game) :
  wf s = true ->
  (forall n, 1 <= n <= 9 -> is_mark (at_position (board s) n) = true) ->
  available_moves s = [].
Proof.
  intros H Hfull. destruct (available_moves s) as [|n av] eqn:Eav; [reflexivity|].
  exfalso.
  destruct (wf_facts s H) as (_ & _ & Hrange).
  assert (n ∈ available_moves s) as Hin by (rewrite Eav; apply elem_of_cons; now left).
  pose proof (Hrange n Hin) as Hn.
  pose proof (wf_at_position s n H Hn) as Hc.
  unfold cell_ok in Hc. apply contains_true in Hin. rewrite Hin in Hc.
  apply String.eqb_eq in Hc.
  specialize (Hfull n Hn). rewrite Hc, str_not_mark in Hfull by assumption.
  discriminate.
Qed.

(** C1. [check_win] on a state of a game: it returns the mark of the first
    line, in the order rows, columns, diagonals, that holds three identical
    marks; with no such line it returns the tie result exactly when no move
    is available and nothing otherwise.  In particular a mark filling one
    of the eight lines, no other line being complete, is returned, and a
    full board without a complete line is a tie. *)
Theorem check_win_evaluate (s : game) :
  wf s = true ->
  check_win s = Ok (evaluate s)
  /\ (forall l m, l ∈ lines -> is_mark m = true -> fills (board s) l m ->
       (forall l', l' ∈ lines -> l' <> l -> holds_three (board s) l' = None) ->
       check_win s = Ok (Some m))
  /\ ((forall l, l ∈ lines -> holds_three (board s) l = None) ->
      (available_moves s = [] -> check_win s = Ok (Some TIE_RESULT))
      /\ (available_moves s <> [] -> check_win s = Ok None))
  /\ ((forall n, 1 <= n <= 9 -> is_mark (at_position (board s) n) = true) ->
      (forall l, l ∈ lines -> holds_three (board s) l = None) ->
      check_win s = Ok (Some TIE_RESULT)).
Proof.
  intros H. pose proof (check_win_refines s H) as Hcw.
  assert (forall l, (forall l', l' ∈ lines -> holds_three (board s) l' = None) ->
                    available_moves s = l ->
                    check_win s = Ok (match l with [] => Some TIE_RESULT | _ :: _ => None end))
    as Hnone.
  { intros l Hl Hav. rewrite Hcw. unfold evaluate.
    rewrite (first_match_none _ _ Hl), Hav. reflexivity. }
  split; [assumption|]. split; [|split].
  - intros [[p q] r] m Hl Hm (Hp & Hq & Hr) Hothers.
    rewrite Hcw. unfold evaluate.
    rewrite (first_match_only (holds_three (board s)) lines (p, q, r) m); auto.
    unfold holds_three. rewrite Hp, Hq, Hr, Hm, String.eqb_refl. reflexivity.
  - intros Hl. split.
    + intros Hav. apply (Hnone [] Hl Hav).
    + intros Hav. destruct (available_moves s) as [|n av] eqn:Eav; [contradiction|].
      apply (Hnone (n :: av) Hl eq_refl).
  - intros Hfull Hl. apply (Hnone [] Hl). now apply full_board_no_moves.
Qed.


Lemma check_win_evaluate_witness :
  wf first_row_x = true /\ check_win first_row_x = Ok (Some "X").
Proof.
  split; [reflexivity|]. exact (proj1 (check_win_evaluate first_row_x eq_refl)).
Defined.

Lemma list_remove_spec (n : Z) (l : list Z) :
  n ∈ l ->
  exists l', list_remove n l = Ok l'
    /\ length l = S (length l')
    /\ (forall k, k <> n -> (k ∈ l' <-> k ∈ l))
    /\ (forall k, k ∈ l' -> k ∈ l)
    /\ (NoDup l -> (n ∉ l') /\ NoDup l').
Proof.
  induction l as [|y l IH]; intros Hin.
  - apply elem_of_nil in Hin. contradiction.
  - simpl. destruct (Z.eqb_spec n y) as [->|Hne].
    + exists l. split; [reflexivity|]. split; [reflexivity|]. split; [|split].
      * intros k Hk. rewrite elem_of_cons. intuition congruence.
      * intros k Hk. apply elem_of_cons. now right.
      * intros Hnd. apply NoDup_cons in Hnd. exact Hnd.
    + apply elem_of_cons in Hin as [->|Hin]; [contradiction|].
      destruct (IH Hin) as (l' & -> & Hlen & Hmem & Hsub & Hnd).
      exists (y :: l'). simpl. split; [reflexivity|]. split; [now rewrite Hlen|].
      split; [|split].
      * intros k Hk. rewrite !elem_of_cons, (Hmem k Hk). reflexivity.
      * intros k Hk. apply elem_of_cons in Hk as [->|Hk]; apply elem_of_cons; auto.
      * intros Hnd'. apply NoDup_cons in Hnd' as [Hy Hnd'].
        destruct (Hnd Hnd') as [Hn Hl']. split.
        -- rewrite elem_of_cons. intros [?|?]; [congruence|contradiction].
        -- apply NoDup_cons. split; [|assumption]. intros Hy'. apply Hy, Hsub, Hy'.
Qed.

Lemma wf_intro (av : list Z) (cp : string) (c1 c2 c3 c4 c5 c6 c7 c8 c9 : string) :
  let b := [[c1; c2; c3]; [c4; c5; c6]; [c7; c8; c9]] in
  is_mark cp = true -> NoDup av -> (forall n, n ∈ av -> 1 <= n <= 9) ->
  (forall k, 1 <= k <= 9 -> cell_ok av k (at_position b k) = true) ->
  wf {| available_moves := av; current_player := cp; board := b |} = true.
Proof.
  intros b Hcp Hnd Hrange Hcells. unfold wf. cbn [available_moves current_player board].
  rewrite Hcp. rewrite bool_decide_eq_true_2 by assumption.
  replace (forallb (fun n : Z => (1 <=? n) && (n <=? 9)) av) with true.
  2:{ symmetry. apply forallb_forall. intros n Hn. apply list_elem_of_In, Hrange in Hn. lia. }
  subst b. cbn [andb].
  assert (cell_ok av 1 c1 = true) as -> by (apply (Hcells 1); lia).
  assert (cell_ok av 2 c2 = true) as -> by (apply (Hcells 2); lia).
  assert (cell_ok av 3 c3 = true) as -> by (apply (Hcells 3); lia).
  assert (cell_ok av 4 c4 = true) as -> by (apply (Hcells 4); lia).
  assert (cell_ok av 5 c5 = true) as -> by (apply (Hcells 5); lia).
  assert (cell_ok av 6 c6 = true) as -> by (apply (Hcells 6); lia).
  assert (cell_ok av 7 c7 = true) as -> by (apply (Hcells 7); lia).
  assert (cell_ok av 8 c8 = true) as -> by (apply (Hcells 8); lia).
  assert (cell_ok av 9 c9 = true) as -> by (apply (Hcells 9); lia).
  reflexivity.
Qed.

Lemma range_cases (n : Z) :
  1 <= n <= 9 ->
  n = 1 \/ n = 2 \/ n = 3 \/ n = 4 \/ n = 5 \/ n = 6 \/ n = 7 \/ n = 8 \/ n = 9.
Proof. lia. Qed.

Lemma index_cases (r : Z) : 0 <= r < 3 -> r = 0 \/ r = 1 \/ r = 2.
Proof. lia. Qed.

(** Writing a cell of a 3 by 3 board. *)
Lemma set_cell_cells (c1 c2 c3 c4 c5 c6 c7 c8 c9 v : string) (n : Z) :
  let b := [[c1; c2; c3]; [c4; c5; c6]; [c7; c8; c9]] in
  1 <= n <= 9 ->
  exists d1 d2 d3 d4 d5 d6 d7 d8 d9 : string,
    let b' := [[d1; d2; d3]; [d4; d5; d6]; [d7; d8; d9]] in
    set_cell b ((n - 1) / 3) ((n - 1) mod 3) v = Ok b'
    /\ cell b' ((n - 1) / 3) ((n - 1) mod 3) = Ok v
    /\ (forall r c, 0 <= r < 3 -> 0 <= c < 3 ->
         (r, c) <> ((n - 1) / 3, (n - 1) mod 3) -> cell b' r c = cell b r c)
    /\ at_position b' n = v
    /\ (forall k, 1 <= k <= 9 -> k <> n -> at_position b' k = at_position b k).
Proof.
  intros b Hn. subst b.
  destruct (range_cases n Hn) as [->|[->|[->|[->|[->|[->|[->|[->| ->]]]]]]]];
    do 9 eexists; (split; [reflexivity|]); (split; [reflexivity|]);
    (split; [|split; [reflexivity|]]).
  all: try (intros r c Hr Hc Hne;
            destruct (index_cases r Hr) as [->|[->| ->]];
            destruct (index_cases c Hc) as [->|[->| ->]];
            first [reflexivity | exfalso; apply Hne; reflexivity]).
  all: intros k Hk Hne;
    destruct (range_cases k Hk) as [->|[->|[->|[->|[->|[->|[->|[->| ->]]]]]]]];
    first [reflexivity | contradiction].
Qed.

(** The common part of [get_user_move] and [get_ai_move]. *)
Lemma place_spec (s : game) (n : Z) :
  wf s = true -> n ∈ available_moves s ->
  exists b am,
    set_cell (board s) ((n - 1) / 3) ((n - 1) mod 3) (current_player s) = Ok b
    /\ list_remove n (available_moves s) = Ok am
    /\ placement s n {| available_moves := am; current_player := current_player s; board := b |}
    /\ wf {| available_moves := am; current_player := current_player s; board := b |} = true.
Proof.
  intros H Hin.
  destruct (wf_facts s H) as (Hcp & Hnd & Hrange).
  pose proof (Hrange n Hin) as Hn.
  destruct (list_remove_spec n _ Hin) as (am & Hrm & Hlen & Hmem & Hsub & Hnd').
  destruct (Hnd' Hnd) as [Hnotin Hndam].
  destruct (wf_cells s H)
    as (c1 & c2 & c3 & c4 & c5 & c6 & c7 & c8 & c9 & Hb & _).
  destruct (set_cell_cells c1 c2 c3 c4 c5 c6 c7 c8 c9 (current_player s) n Hn)
    as (d1 & d2 & d3 & d4 & d5 & d6 & d7 & d8 & d9 & Hset & Hget & Hother & Hat & Hats).
  rewrite <- Hb in Hset, Hother, Hats.
  eexists _, am. split; [exact Hset|]. split; [exact Hrm|]. split.
  - unfold placement. cbn [available_moves current_player board].
    repeat split; try assumption; try lia; apply Hmem; assumption.
  - apply wf_intro; try assumption.
    + intros k Hk. apply Hrange, Hsub, Hk.
    + intros k Hk. destruct (Z.eq_dec k n) as [->|Hne].
      * rewrite Hat. unfold cell_ok.
        rewrite (proj2 (contains_false n am)) by assumption. assumption.
      * rewrite (Hats k Hk Hne).
        pose proof (wf_at_position s k H Hk) as Hc. unfold cell_ok in *.
        replace (contains k am) with (contains k (available_moves s)); [assumption|].
        unfold contains. apply bool_decide_ext. symmetry. apply Hmem. assumption.
Qed.



(** One pass of [get_user_move] in a state of a game: it never raises, and
    either asks again with nothing changed or performs a placement. *)
Lemma get_user_move_pass_cases `{Builtins} (line : string) (s : game) :
  wf s = true ->
  (get_user_move_pass line s = Ok (Again s)
   /\ (py_int line = None
       \/ exists n, py_int line = Some n /\ n ∉ available_moves s))
  \/ (exists n s', get_user_move_pass line s = Ok (Return s')
        /\ py_int line = Some n /\ n ∈ available_moves s
        /\ placement s n s' /\ wf s' = true).
Proof.
  intros Hwf. unfold get_user_move_pass.
  destruct (py_int line) as [n|]; [|left; auto].
  destruct (contains n (available_moves s)) eqn:Hc.
  - right. apply contains_true in Hc.
    destruct (place_spec s n Hwf Hc) as (b & am & -> & -> & Hp & Hwf').
    cbn [bind]. eauto 10.
  - left. apply contains_false in Hc. eauto.
Qed.

Lemma get_ai_move_cases (k : nat) (s : game) :
  wf s = true ->
  (get_ai_move k s = Raise IndexError /\ available_moves s !! k = None)
  \/ (exists n s', get_ai_move k s = Ok s'
        /\ available_moves s !! k = Some n
        /\ placement s n s' /\ wf s' = true).
Proof.
  intros Hwf. unfold get_ai_move.
  destruct (available_moves s !! k) as [n|] eqn:Hk; [|left; auto].
  right. assert (n ∈ available_moves s) as Hin by (eapply list_elem_of_lookup_2; eauto).
  destruct (place_spec s n Hwf Hin) as (b & am & -> & -> & Hp & Hwf').
  cbn [bind]. eauto 10.
Qed.

Lemma switch_player_wf (s : game) : wf s = true -> wf (switch_player s) = true.
Proof.
  unfold wf, switch_player. cbn [available_moves current_player board].
  intros H. repeat (apply andb_true_iff in H as [H ?]).
  repeat (apply andb_true_iff; split); try assumption.
  destruct (String.eqb (current_player s) PLAYER_X); reflexivity.
Qed.

Lemma reachable_wf `{Builtins} (s : game) : reachable s -> wf s = true.
Proof.
  induction 1 as [|line s s' _ IH Hmove|k s s' _ IH Hmove|s _ IH].
  - reflexivity.
  - destruct (get_user_move_pass_cases line s IH)
      as [[Hag _]|(n & s1 & Hret & _ & _ & _ & Hwf)]; congruence.
  - destruct (get_ai_move_cases k s IH)
      as [[Hr _]|(n & s1 & Hok & _ & _ & Hwf)]; congruence.
  - now apply switch_player_wf.
Qed.

(** C3. A line that reads as a position [n] among the available moves is
    accepted by [get_user_move]: the mark of the player to move is written
    at row [(n-1) div 3], column [(n-1) mod 3] (with [1 <= n <= 9]), [n]
    leaves the available moves, whose number drops by exactly one, and no
    other cell changes.  A line that is no integer or no available move is
    asked again with the board, the available moves and the player to move
    unchanged, and the loop of [play] stays at the same prompt. *)
Theorem get_user_move_placement `{Builtins} (s : game) (line : string) :
  (wf s = true ->
   forall n, py_int line = Some n -> n ∈ available_moves s ->
   exists s', get_user_move_pass line s = Ok (Return s')
     /\ (forall rest, get_user_move (line :: rest) s = Ok (s', rest))
     /\ placement s n s'
     /\ wf s' = true)
  /\ ((py_int line = None
       \/ exists n, py_int line = Some n /\ n ∉ available_moves s) ->
      get_user_move_pass line s = Ok (Again s)
      /\ (forall rest, get_user_move (line :: rest) s = get_user_move rest s)
      /\ (forall ai_mode,
            step (UserMove ai_mode, s) (Line line)
            = Some (Quiet, (UserMove ai_mode, s)))).
Proof.
  split.
  - intros Hwf n Hint Hin.
    destruct (get_user_move_pass_cases line s Hwf)
      as [[_ [Hnone|(m & Hm & Hnotin)]]|(m & s' & Hret & Hm & _ & Hp & Hwf')].
    + congruence.
    + rewrite Hint in Hm. injection Hm as <-. contradiction.
    + rewrite Hint in Hm. injection Hm as <-.
      exists s'. split; [assumption|]. split; [|split; assumption].
      intros rest. cbn [get_user_move]. rewrite Hret. reflexivity.
  - intros Hbad.
    assert (get_user_move_pass line s = Ok (Again s)) as Hag.
    { unfold get_user_move_pass. destruct Hbad as [->|(n & -> & Hn)]; [reflexivity|].
      now rewrite (proj2 (contains_false n _) Hn). }
    split; [assumption|]. split.
    + intros rest. cbn [get_user_move]. rewrite Hag. reflexivity.
    + intros ai_mode. cbn [step]. rewrite Hag. reflexivity.
Qed.

Lemma get_user_move_placement_witness :
  exists s',
    @get_user_move ascii_builtins ["five"; "5"; "1"] reset_game = Ok (s', ["1"])
    /\ placement reset_game 5 s'.
Proof.
  destruct (proj1 (@get_user_move_placement ascii_builtins reset_game "5")
              eq_refl 5 eq_refl)
    as (s' & _ & Hloop & Hp & _).
  { vm_compute. repeat constructor. }
  exists s'. split; [|exact Hp].
  rewrite (proj1 (proj2 (proj2 (@get_user_move_placement ascii_builtins reset_game "five")
                           (or_introl eq_refl)))).
  apply Hloop.
Defined.

(** Position 5 on a fresh board: the second row becomes 4, X, 6 and 5 is
    no longer available. *)
Example centre_move :
  @get_user_move ascii_builtins ["5"] reset_game
  = Ok ({| available_moves := [1; 2; 3; 4; 6; 7; 8; 9];
           current_player := "X";
           board := [["1"; "2"; "3"]; ["4"; "X"; "6"]; ["7"; "8"; "9"]] |}, []).
Proof. reflexivity. Qed.

(** Position 0 is not available although [board[-1][2]] is a cell. *)
Example position_zero :
  @get_user_move_pass ascii_builtins "0" reset_game = Ok (Again reset_game).
Proof. reflexivity. Qed.

Lemma first_match_some {A B : Type} (f : A -> option B) (l : list A) (y : B) :
  first_match f l = Some y -> exists x, x ∈ l /\ f x = Some y.
Proof.
  induction l as [|a l IH]; [discriminate|]. simpl.
  destruct (f a) as [b|] eqn:Ea.
  - intros [= <-]. exists a. split; [apply elem_of_cons; now left|assumption].
  - intros Hy. destruct (IH Hy) as (x & Hx & Hfx).
    exists x. split; [apply elem_of_cons; now right|assumption].
Qed.

Lemma holds_three_mark (b : list (list string)) (l : Z * Z * Z) (m : string) :
  holds_three b l = Some m -> is_mark m = true.
Proof.
  destruct l as [[p q] r]. unfold holds_three.
  destruct (is_mark (at_position b p)) eqn:Hm; [|discriminate].
  destruct (_ && _ && _); [|discriminate]. now intros [= <-].
Qed.

Lemma evaluate_cases (s : game) :
  evaluate s = None \/ evaluate s = Some TIE_RESULT
  \/ exists m, evaluate s = Some m /\ is_mark m = true.
Proof.
  unfold evaluate.
  destruct (first_match (holds_three (board s)) lines) as [m|] eqn:Hf.
  - right. right. exists m. split; [reflexivity|].
    apply first_match_some in Hf as (l & _ & Hl). eapply holds_three_mark; eauto.
  - destruct (available_moves s); auto.
Qed.

(** C10. On every board that legal placements reach from a fresh board,
    [check_win] returns X, O, the tie result or nothing, and never the
    position label of an unoccupied cell. *)
Theorem check_win_never_label `{Builtins} (s : game) :
  reachable s ->
  (check_win s = Ok (Some PLAYER_X) \/ check_win s = Ok (Some PLAYER_O)
   \/ check_win s = Ok (Some TIE_RESULT) \/ check_win s = Ok None)
  /\ (forall n, 1 <= n <= 9 -> check_win s <> Ok (Some (str n))).
Proof.
  intros Hr. pose proof (reachable_wf s Hr) as Hwf.
  rewrite (check_win_refines s Hwf).
  assert (evaluate s = Some PLAYER_X \/ evaluate s = Some PLAYER_O
          \/ evaluate s = Some TIE_RESULT \/ evaluate s = None) as Hc.
  { destruct (evaluate_cases s) as [->|[->|(m & -> & Hm)]]; auto.
    apply is_mark_spec in Hm as [->| ->]; auto. }
  split.
  - destruct Hc as [->|[->|[->| ->]]]; auto.
  - intros n Hn Heq.
    destruct (range_cases n Hn) as [->|[->|[->|[->|[->|[->|[->|[->| ->]]]]]]]];
      destruct Hc as [Hc|[Hc|[Hc|Hc]]]; rewrite Hc in Heq; discriminate.
Qed.

Lemma check_win_never_label_witness :
  exists s, @get_ai_move 4 reset_game = Ok s /\ check_win s = Ok None.
Proof.
  eexists. split; [reflexivity|].
  destruct (proj1 (@check_win_never_label ascii_builtins _
              (@reach_ai ascii_builtins 4 _ _ (@reach_fresh ascii_builtins) eq_refl)))
    as [Hc|[Hc|[Hc|Hc]]]; try discriminate Hc. exact Hc.
Defined.

(** *** Turns *)


Lemma switch_player_twice (s : game) :
  is_mark (current_player s) = true -> switch_player (switch_player s) = s.
Proof.
  intros Hm. destruct s as [av cp b]. unfold switch_player. simpl in *.
  apply is_mark_spec in Hm as [->| ->]; reflexivity.
Qed.

Lemma mark_of_turn_S (k : nat) : mark_of_turn (S k) = other (mark_of_turn k).
Proof.
  unfold mark_of_turn, other. rewrite Nat.even_succ, <- Nat.negb_even.
  destruct (Nat.even k); reflexivity.
Qed.

Lemma alternating_S (k : nat) : alternating (S k) = (alternating k ++ [mark_of_turn k])%list.
Proof. unfold alternating. rewrite seq_S, map_app. reflexivity. Qed.

Lemma alternating_length (k : nat) : length (alternating k) = k.
Proof. unfold alternating. now rewrite length_map, length_seq. Qed.

Lemma wf_moves_bound (s : game) : wf s = true -> (length (available_moves s) <= 9)%nat.
Proof.
  intros H. destruct (wf_facts s H) as (_ & Hnd & Hrange).
  change 9%nat with (length (range 1 10)).
  apply submseteq_length, NoDup_submseteq; [assumption|].
  intros n Hn. apply Hrange in Hn.
  destruct (range_cases n Hn) as [->|[->|[->|[->|[->|[->|[->|[->| ->]]]]]]]];
    vm_compute; repeat constructor.
Qed.


Lemma turn_inv_start : turn_inv start [].
Proof. repeat split. Qed.

Lemma check_win_wf (s : game) : wf s = true -> exists r, check_win s = Ok r.
Proof. intros H. rewrite (check_win_refines s H). eauto. Qed.

(** The step of the loop that follows a placement. *)
Lemma check_win_outcome (s : game) :
  wf s = true ->
  check_win s = Ok None
  \/ exists r, check_win s = Ok (Some r)
               /\ (r = PLAYER_X \/ r = PLAYER_O \/ r = TIE_RESULT).
Proof.
  intros Hwf. rewrite (check_win_refines s Hwf).
  destruct (evaluate_cases s) as [->|[->|(m & -> & Hm)]]; [now left|right..].
  - exists TIE_RESULT. auto.
  - exists m. apply is_mark_spec in Hm. split; [reflexivity|tauto].
Qed.

Lemma other_differs (m : string) : is_mark m = true -> other m <> m.
Proof. intros Hm. apply is_mark_spec in Hm as [->| ->]; discriminate. Qed.

Lemma after_move_inv (at_ : pc) (ai_mode : bool) (s s' : game) (n : Z)
    (next : game -> pc) (marks : list string) (a : action) (c' : config) :
  turn_inv (at_, s) marks -> in_game at_ = true ->
  placement s n s' -> wf s' = true -> n ∈ available_moves s ->
  (forall s'', in_game (next s'') = true) ->
  after_move ai_mode (current_player s) s' next = (a, c') ->
  a = Placed (current_player s)
  /\ turn_inv c' (marks ++ [current_player s])
  /\ (check_win (snd c') = Ok None
      /\ in_game (fst c') = true
      /\ current_player (snd c') = other (current_player s)
      /\ other (current_player s) <> current_player s
      \/ (exists r, check_win (snd c') = Ok (Some r)
                    /\ (r = PLAYER_X \/ r = PLAYER_O \/ r = TIE_RESULT))
         /\ fst c' = Rematch ai_mode
         /\ current_player (snd c') = current_player s).
Proof.
  intros (Hwf & Halt & Hin) Hgame Hp Hwf' Hmem Hnext Hafter.
  destruct (Hin Hgame) as [Hlen Hcp].
  destruct Hp as (_ & _ & _ & _ & _ & Hlen' & Hcp').
  pose proof (wf_moves_bound s Hwf) as Hbound. simpl in *.
  assert ((marks ++ [current_player s])%list
          = alternating (length (marks ++ [current_player s])%list)) as Halt'.
  { rewrite length_app, Nat.add_1_r, alternating_S, <- Halt, Hcp. reflexivity. }
  unfold after_move in Hafter.
  destruct (check_win_outcome s' Hwf') as [Hr|(r & Hr & Hcases)]; rewrite Hr in Hafter.
  - cbn [truthy] in Hafter. injection Hafter as <- <-.
    split; [reflexivity|]. split; [|left].
    + split; [now apply switch_player_wf|]. split; [assumption|].
      intros _. cbn [snd switch_player available_moves current_player].
      rewrite length_app, Nat.add_1_r. split; [lia|].
      rewrite mark_of_turn_S, <- Hcp, Hcp'. reflexivity.
    + split; [exact Hr|]. split; [apply Hnext|].
      cbn [snd switch_player current_player]. rewrite Hcp'.
      split; [reflexivity|]. apply other_differs.
      now destruct (wf_facts s Hwf).
  - assert (truthy (Some r) = true) as Ht
      by (destruct Hcases as [->|[->| ->]]; reflexivity).
    rewrite Ht in Hafter. injection Hafter as <- <-.
    split; [reflexivity|]. split; [|right].
    + split; [assumption|]. split; [assumption|]. discriminate.
    + split; [eauto|]. split; [reflexivity|assumption].
Qed.


Lemma step_inv `{Builtins} (c : config) (marks : list string) (e : event)
    (a : action) (c' : config) :
  turn_inv c marks -> step c e = Some (a, c') ->
  turn_inv c' (marks_of_game [a] marks) /\ turn_step c a c'.
Proof.
  intros Hinv Hstep. destruct c as [at_ s].
  pose proof Hinv as (Hwf & Halt & Hin).
  destruct at_ as [|ai_mode| |ai_mode| |x], e as [l|k]; try discriminate Hstep;
    cbn [step] in Hstep.
  - destruct (get_yes_no_input_pass l); injection Hstep as <- <-;
      (split; [exact Hinv|reflexivity]).
  - destruct (get_user_move_pass_cases l s Hwf)
      as [[Hag _]|(n & s' & Hret & _ & Hmem & Hp & Hwf')].
    + rewrite Hag in Hstep. injection Hstep as <- <-. split; [exact Hinv|reflexivity].
    + rewrite Hret in Hstep. injection Hstep as Hafter.
      eapply after_move_inv in Hafter as (-> & Hinv' & Hturn); eauto.
      * split; [exact Hinv'|]. split; [reflexivity|].
        destruct Hturn as [Hopen|(Hd & Hr & Hc)]; [left; exact Hopen|right].
        split; [exact Hd|]. split; [eauto|exact Hc].
      * intros s''. destruct ai_mode, (available_moves s''); reflexivity.
  - destruct (get_ai_move_cases k s Hwf)
      as [[Hr _]|(n & s' & Hok & Hk & Hp & Hwf')].
    + rewrite Hr in Hstep. injection Hstep as <- <-.
      split; [|reflexivity]. split; [assumption|]. split; [assumption|discriminate].
    + rewrite Hok in Hstep. injection Hstep as Hafter.
      eapply after_move_inv in Hafter as (-> & Hinv' & Hturn); eauto.
      * split; [exact Hinv'|]. split; [reflexivity|].
        destruct Hturn as [Hopen|(Hd & Hr & Hc)]; [left; exact Hopen|right].
        split; [exact Hd|]. split; [eauto|exact Hc].
      * eapply list_elem_of_lookup_2; eauto.
  - destruct (get_yes_no_input_pass l) as [[|]|]; injection Hstep as <- <-.
    + split; [|reflexivity]. repeat split.
    + split; [|reflexivity]. split; [assumption|]. split; [assumption|discriminate].
    + split; [exact Hinv|reflexivity].
Qed.

Lemma marks_of_game_cons (a : action) (acts : list action) (acc : list string) :
  marks_of_game (a :: acts) acc = marks_of_game acts (marks_of_game [a] acc).
Proof. destruct a; reflexivity. Qed.

Lemma run_inv `{Builtins} (es : list event) (c : config) (marks : list string)
    (acts : list action) (c' : config) :
  turn_inv c marks -> run c es = Some (acts, c') ->
  turn_inv c' (marks_of_game acts marks).
Proof.
  revert c marks acts. induction es as [|e es IH]; intros c marks acts Hinv Hrun.
  - injection Hrun as <- <-. exact Hinv.
  - cbn [run] in Hrun. destruct (step c e) as [[a c1]|] eqn:Hstep; [|discriminate].
    destruct (run c1 es) as [[acts1 c2]|] eqn:Hrun1; [|discriminate].
    injection Hrun as <- <-. rewrite marks_of_game_cons.
    eapply IH; [|exact Hrun1]. eapply step_inv; eauto.
Qed.

(** Every state that [play] reaches from a fresh board is a state of a
    game. *)
Lemma run_wf `{Builtins} (es : list event) (acts : list action) (c : config) :
  run start es = Some (acts, c) -> wf (snd c) = true.
Proof.
  intros Hrun. exact (proj1 (run_inv es start [] acts c turn_inv_start Hrun)).
Qed.

(** C9, as the code has it.  [switch_player] undoes itself on a state
    whose player is X or O.  Along [play] from a fresh board the player to
    move is always X or O; a placement writes the mark of the player to
    move; when [check_win] then finds the game undecided, the placement is
    followed by exactly one switch to the other player and the game goes
    on, and when [check_win] finds a winner or the tie the player stays as
    it is and the question about another game follows; no other transition
    but a new game changes the player; and the marks placed on a board
    since it was fresh read X, O, X, O, ... *)
Theorem turns_alternate `{Builtins} :
  (forall s, is_mark (current_player s) = true ->
             switch_player (switch_player s) = s)
  /\ (forall es acts c,
        run start es = Some (acts, c) ->
        is_mark (current_player (snd c)) = true
        /\ marks_of_game acts [] = alternating (length (marks_of_game acts []))
        /\ (forall e a c', step c e = Some (a, c') -> turn_step c a c')).
Proof.
  split; [exact switch_player_twice|].
  intros es acts c Hrun.
  pose proof (run_inv es start [] acts c turn_inv_start Hrun) as Hinv.
  pose proof Hinv as (Hwf & Halt & _).
  destruct (wf_facts _ Hwf) as (Hcp & _).
  split; [assumption|]. split; [assumption|].
  intros e a c' Hstep. eapply step_inv; eauto.
Qed.

Lemma turns_alternate_witness :
  marks_of_game [Quiet; Placed "X"; Placed "O"; Quiet; Placed "X"] []
  = alternating 3
  /\ switch_player (switch_player reset_game) = reset_game
  /\ (exists c c',
        @run ascii_builtins start [Line "n"; Line "1"; Line "4"; Line "2"]
        = Some ([Quiet; Placed "X"; Placed "O"; Placed "X"], c)
        /\ @step ascii_builtins c (Line "5") = Some (Placed "O", c')
        /\ check_win (snd c') = Ok None
        /\ current_player (snd c') = "X")
  /\ (exists c c',
        @run ascii_builtins start [Line "n"; Line "1"; Line "4"; Line "2"; Line "5"]
        = Some ([Quiet; Placed "X"; Placed "O"; Placed "X"; Placed "O"], c)
        /\ @step ascii_builtins c (Line "3") = Some (Placed "X", c')
        /\ check_win (snd c') = Ok (Some "X")
        /\ fst c' = Rematch false
        /\ current_player (snd c') = "X").
Proof.
  split; [|split; [|split]].
  - destruct (proj2 (@turns_alternate ascii_builtins)
                [Line "no"; Line "5"; Line "1"; Line "x"; Line "9"] _ _ eq_refl)
      as (_ & Halt & _).
    exact Halt.
  - apply (proj1 (@turns_alternate ascii_builtins)). reflexivity.
  - do 2 eexists. split; [reflexivity|]. split; [reflexivity|].
    destruct (proj2 (@turns_alternate ascii_builtins)
                [Line "n"; Line "1"; Line "4"; Line "2"] _ _ eq_refl)
      as (_ & _ & Hstep).
    destruct (Hstep (Line "5") _ _ eq_refl) as (_ & [(Hc & _ & Hp & _)|((r & Hr & _) & _)]).
    + split; [exact Hc|exact Hp].
    + discriminate Hr.
  - do 2 eexists. split; [reflexivity|]. split; [reflexivity|].
    destruct (proj2 (@turns_alternate ascii_builtins)
                [Line "n"; Line "1"; Line "4"; Line "2"; Line "5"] _ _ eq_refl)
      as (_ & _ & Hstep).
    destruct (Hstep (Line "3") _ _ eq_refl)
      as (_ & [(Hc & _)|((r & Hr & _) & _ & Hp)]).
    + discriminate Hc.
    + split; [reflexivity|]. split; [reflexivity|exact Hp].
Defined.

(** After X completes the first row the player to move is still X: this
    placement is followed by no switch. *)
Lemma deciding_placement_no_switch :
  exists c c',
    @run ascii_builtins start [Line "n"; Line "1"; Line "4"; Line "2"; Line "5"]
    = Some ([Quiet; Placed "X"; Placed "O"; Placed "X"; Placed "O"], c)
    /\ @step ascii_builtins c (Line "3") = Some (Placed "X", c')
    /\ current_player (snd c) = "X"
    /\ current_player (snd c') = "X"
    /\ fst c' = Rematch false
    /\ ~ @flips_on_every_placement ascii_builtins.
Proof.
  do 2 eexists. do 5 (split; [reflexivity|]).
  intros Hclaim.
  specialize (Hclaim [Line "n"; Line "1"; Line "4"; Line "2"; Line "5"]
                _ _ (Line "3") _ _ eq_refl eq_refl).
  discriminate Hclaim.
Qed.

End TicTacToeProps.

(** ** Properties of the choice game *)

Module RockPaperScissorsProps.
Import Python RockPaperScissors.




(** Decides a menu branch once the choice is known to be one of the texts
    of a list. *)
Ltac menu_in Hin :=
  repeat (apply elem_of_cons in Hin as [Hin|Hin]; [rewrite Hin; reflexivity|]);
  apply elem_of_nil in Hin; contradiction.

Lemma among_true (s : string) (l : list string) : among s l = true <-> s ∈ l.
Proof. unfold among. apply bool_decide_eq_true. Qed.

Lemma among_false (s : string) (l : list string) : among s l = false <-> s ∉ l.
Proof. unfold among. apply bool_decide_eq_false. Qed.

Lemma choices_cases (c : string) :
  c ∈ choices -> c = ROCK \/ c = PAPER \/ c = SCISSORS.
Proof. unfold choices. rewrite !elem_of_cons, elem_of_nil. tauto. Qed.

Lemma add_score_lookup (key : string) (g : game) (v : Z) :
  scores g !! key = Some v ->
  add_score key g = Ok (set_scores g (<[key := v + 1]> (scores g))).
Proof. intros Hv. unfold add_score, score. rewrite Hv. reflexivity. Qed.

(** One resolution of a round. *)
Lemma resolve_round_once (g : game) (c1 c2 : string) (v1 v2 : Z) :
  c1 ∈ choices -> c2 ∈ choices ->
  scores g !! "Player 1" = Some v1 -> scores g !! "Player 2" = Some v2 ->
  exists o g',
    resolve_round g c1 c2
    = Ok (o, match o with
             | Tie => "It's a tie!"
             | Player1Wins => player1_name g ++ " wins!"
             | Player2Wins => player2_name g ++ " wins!"
             end, g')
    /\ (o = Tie <-> c1 = c2)
    /\ (o = Player1Wins <-> (c1, c2) ∈ beats)
    /\ (o = Player2Wins <-> c1 <> c2 /\ (c1, c2) ∉ beats)
    /\ scores g' !! "Player 1" = Some (v1 + gain o Player1Wins)
    /\ scores g' !! "Player 2" = Some (v2 + gain o Player2Wins)
    /\ g' = set_scores g (scores g').
Proof.
  intros H1 H2 Hv1 Hv2.
  apply choices_cases in H1 as [->|[->| ->]];
    apply choices_cases in H2 as [->|[->| ->]].
  all: unfold resolve_round; simpl.
  all: try rewrite (add_score_lookup _ g _ Hv1).
  all: try rewrite (add_score_lookup _ g _ Hv2).
  all: first
    [ exists Tie, g; split; [reflexivity|]
    | exists Player1Wins, (set_scores g (<["Player 1" := v1 + 1]> (scores g)));
      split; [reflexivity|]
    | exists Player2Wins, (set_scores g (<["Player 2" := v2 + 1]> (scores g)));
      split; [reflexivity|] ].
  all: unfold beats, ROCK, PAPER, SCISSORS; rewrite !elem_of_cons, elem_of_nil.
  all: repeat split; try discriminate; try (intros; exfalso; intuition discriminate);
    try (intuition (discriminate || auto)).
  all: simpl; try assumption; try (destruct g; reflexivity).
  all: try (rewrite lookup_insert_eq; reflexivity).
  all: try (rewrite lookup_insert_ne by discriminate; rewrite ?Z.add_0_r; assumption).
  all: try (rewrite Z.add_0_r; assumption).
Qed.

Lemma set_scores_fields (g : game) (sc : gmap string Z) :
  scores (set_scores g sc) = sc
  /\ player1_name (set_scores g sc) = player1_name g
  /\ player2_name (set_scores g sc) = player2_name g.
Proof. repeat split. Qed.

(** C2. For every pair of choices exactly one outcome holds: a tie exactly
    when the choices are equal, participant 1 exactly on rock against
    scissors, scissors against paper and paper against rock, participant 2
    otherwise.  The winner's score grows by exactly 1, the other score and
    both scores of a tie stay, and resolving the same pair again gives the
    same outcome, the same announcement and the same score changes. *)
Theorem resolve_round_table (g : game) (c1 c2 : string) (v1 v2 : Z) :
  c1 ∈ choices -> c2 ∈ choices ->
  scores g !! "Player 1" = Some v1 -> scores g !! "Player 2" = Some v2 ->
  exists o message g' g'',
    resolve_round g c1 c2 = Ok (o, message, g')
    /\ (o = Tie <-> c1 = c2)
    /\ (o = Player1Wins <-> (c1, c2) ∈ beats)
    /\ (o = Player2Wins <-> c1 <> c2 /\ (c1, c2) ∉ beats)
    /\ scores g' !! "Player 1" = Some (v1 + gain o Player1Wins)
    /\ scores g' !! "Player 2" = Some (v2 + gain o Player2Wins)
    /\ g' = set_scores g (scores g')
    /\ resolve_round g' c1 c2 = Ok (o, message, g'')
    /\ scores g'' !! "Player 1" = Some (v1 + gain o Player1Wins + gain o Player1Wins)
    /\ scores g'' !! "Player 2" = Some (v2 + gain o Player2Wins + gain o Player2Wins).
Proof.
  intros H1 H2 Hv1 Hv2.
  destruct (resolve_round_once g c1 c2 v1 v2 H1 H2 Hv1 Hv2)
    as (o & g' & Hr & Ht & Hw1 & Hw2 & Hs1 & Hs2 & Hg').
  destruct (resolve_round_once g' c1 c2 _ _ H1 H2 Hs1 Hs2)
    as (o' & g'' & Hr' & Ht' & Hw1' & Hw2' & Hs1' & Hs2' & _).
  assert (o' = o) as ->.
  { destruct o; [apply Ht', Ht|apply Hw1', Hw1|apply Hw2', Hw2]; reflexivity. }
  eexists o, _, g', g''. split; [exact Hr|].
  repeat (split; [assumption|]). split; [|split; assumption].
  rewrite Hr'. rewrite Hg'. reflexivity.
Qed.

Lemma resolve_round_table_witness :
  exists o message g' g'',
    resolve_round init ROCK SCISSORS = Ok (o, message, g')
    /\ (o = Player1Wins <-> (ROCK, SCISSORS) ∈ beats)
    /\ scores g' !! "Player 1" = Some (0 + gain o Player1Wins)
    /\ resolve_round g' ROCK SCISSORS = Ok (o, message, g'')
    /\ scores g'' !! "Player 1" = Some (0 + gain o Player1Wins + gain o Player1Wins).
Proof.
  destruct (resolve_round_table init ROCK SCISSORS 0 0)
    as (o & message & g' & g'' & Hr & _ & Hw & _ & H1 & _ & _ & Hr' & H1' & _).
  - repeat constructor.
  - repeat constructor.
  - reflexivity.
  - reflexivity.
  - exists o, message, g', g''. repeat split; solve [assumption | apply Hw].
Defined.

(** *** Scores *)


Lemma resolve_round_credited (g : game) (c1 c2 : string) (o : outcome)
    (message : string) (g' : game) :
  resolve_round g c1 c2 = Ok (o, message, g') -> credited o (scores g) (scores g').
Proof.
  unfold resolve_round, add_score, score.
  destruct (String.eqb c1 c2); [intros [= <- _ <-]; reflexivity|].
  destruct (bool_decide _).
  - destruct (scores g !! "Player 1") as [v|] eqn:Hv; [|discriminate].
    intros [= <- _ <-]. exists v. split; [assumption|reflexivity].
  - destruct (scores g !! "Player 2") as [v|] eqn:Hv; [|discriminate].
    intros [= <- _ <-]. exists v. split; [assumption|reflexivity].
Qed.

Lemma credited_ok (o : outcome) (g g' : game) :
  credited o (scores g) (scores g') -> scores_ok g -> scores_ok g'.
Proof.
  intros Hc (v1 & v2 & H1 & H2 & Hp1 & Hp2). unfold scores_ok.
  destruct o; simpl in Hc.
  - rewrite Hc. eauto 10.
  - destruct Hc as (v & Hv & ->). exists (v + 1), v2.
    rewrite lookup_insert_eq, lookup_insert_ne by discriminate.
    assert (v = v1) by congruence. repeat split; auto; lia.
  - destruct Hc as (v & Hv & ->). exists v1, (v + 1).
    rewrite lookup_insert_eq, lookup_insert_ne by discriminate.
    assert (v = v2) by congruence. repeat split; auto; lia.
Qed.


Lemma finish_round_score (g : game) (c1 c2 : string) (a : action) (c' : config) :
  finish_round g c1 c2 = (a, c') ->
  match a with
  | Quiet => scores (snd c') = scores g
  | Resolved o _ => credited o (scores g) (scores (snd c'))
  end.
Proof.
  unfold finish_round.
  destruct (resolve_round g c1 c2) as [[[o message] g']|x] eqn:Hr.
  - apply resolve_round_credited in Hr.
    destruct (print_scores g'); intros [= <- <-]; exact Hr.
  - intros [= <- <-]. reflexivity.
Qed.

Lemma step_score `{Builtins} (c : config) (e : event) (a : action) (c' : config) :
  step c e = Some (a, c') -> score_step c a c'.
Proof.
  destruct c as [at_ g]. unfold step, pre_game, second_choice, after_game_menu.
  destruct at_, e as [l|k]; try discriminate;
    repeat match goal with
      | |- context [if ?b then _ else _] => destruct b
      | |- context [match ?x with Some _ => _ | None => _ end] => destruct x eqn:?
      | |- context [match print_scores ?g with Ok _ => _ | Raise _ => _ end] =>
          destruct (print_scores g)
      end;
    try (intros [= <- <-]; reflexivity); try discriminate.
  all: intros [= Hf]; pose proof (finish_round_score _ _ _ _ _ Hf) as Hs;
    destruct a; [|exact Hs]; split; [exact Hs|eauto].
Qed.

Lemma run_scores_ok `{Builtins} (es : list event) (c : config)
    (acts : list action) (c' : config) :
  scores_ok (snd c) -> run c es = Some (acts, c') -> scores_ok (snd c').
Proof.
  revert c acts. induction es as [|e es IH]; intros c acts Hok Hrun.
  - injection Hrun as <- <-. exact Hok.
  - cbn [run] in Hrun. destruct (step c e) as [[a c1]|] eqn:Hstep; [|discriminate].
    destruct (run c1 es) as [[acts1 c2]|] eqn:Hrun1; [|discriminate].
    injection Hrun as <- <-. eapply IH; [|exact Hrun1].
    apply step_score in Hstep. destruct a as [o message|]; simpl in Hstep.
    + destruct Hstep as [Hc _]. eapply credited_ok; eauto.
    + destruct Hok as (v1 & v2 & Hv). exists v1, v2. rewrite Hstep. exact Hv.
Qed.

(** C5, as the code has it.  Along [play] from a new object both scores
    are integers that are never negative; a transition changes a score only
    when it resolves a round, and then adds exactly 1 to the score of the
    winner and nothing else; the reset of the settings puts the two
    settings, [has_names] and the two names back to their defaults and
    leaves both scores as they are, as does every other operation. *)
Theorem scores_only_grow `{Builtins} :
  (forall es acts c, run start es = Some (acts, c) -> scores_ok (snd c))
  /\ (forall c e a c', step c e = Some (a, c') -> score_step c a c')
  /\ (forall g, scores (reset_settings g) = scores g)
  /\ (forall g line,
       py_strip (py_lower line) ∈ ["3"; "reset to default settings"; "d"] ->
       step (Settings, g) (Line line) = Some (Quiet, (Settings, reset_settings g)))
  /\ (forall g,
       require_names (reset_settings g) = true
       /\ two_player_mode (reset_settings g) = false
       /\ has_names (reset_settings g) = false
       /\ player1_name (reset_settings g) = "Player 1"
       /\ player2_name (reset_settings g) = "The Bot"
       /\ reset_settings g = set_scores init (scores g)).
Proof.
  split; [|split; [|split; [|split; [|intros g; repeat split]]]].
  - intros es acts c Hrun. eapply run_scores_ok; [|exact Hrun].
    exists 0, 0. repeat split; lia.
  - intros c e a c'. apply step_score.
  - reflexivity.
  - intros g line Hin. cbn [step]. menu_in Hin.
Qed.

Lemma scores_only_grow_witness :
  exists acts g,
    @run ascii_builtins start
      [Line "2"; Line "1"; Line "2"; Line "4"; Line "1"; Line "rock"; Line "s";
       Line ""; Line "2"; Line "2"]
    = Some (acts, (Settings, g))
    /\ scores_ok g
    /\ require_names g = false /\ two_player_mode g = true
    /\ player2_name g = "Player 2" /\ scores g !! "Player 1" = Some 1
    /\ @step ascii_builtins (Settings, g) (Line "D")
       = Some (Quiet, (Settings, reset_settings g))
    /\ require_names (reset_settings g) = true
    /\ two_player_mode (reset_settings g) = false
    /\ has_names (reset_settings g) = false
    /\ player2_name (reset_settings g) = "The Bot"
    /\ scores (reset_settings g) = scores g.
Proof.
  do 2 eexists. split; [reflexivity|]. split.
  - exact (proj1 (@scores_only_grow ascii_builtins)
             [Line "2"; Line "1"; Line "2"; Line "4"; Line "1"; Line "rock"; Line "s";
              Line ""; Line "2"; Line "2"] _ _ eq_refl).
  - do 4 (split; [reflexivity|]). split.
    + apply (proj1 (proj2 (proj2 (proj2 (@scores_only_grow ascii_builtins))))).
      vm_compute. repeat constructor.
    + match goal with
      | |- require_names (reset_settings ?g) = true /\ _ =>
          destruct (proj2 (proj2 (proj2 (proj2 (@scores_only_grow ascii_builtins)))) g)
            as (Hr & Ht & Hh & _ & Hp & _);
          pose proof (proj1 (proj2 (proj2 (@scores_only_grow ascii_builtins))) g) as Hs
      end.
      split; [exact Hr|]. split; [exact Ht|]. split; [exact Hh|]. split; [exact Hp|exact Hs].
Defined.

(** The settings reset after participant 1 has won a round: the score is
    still 1. *)
Lemma reset_keeps_scores :
  exists acts g,
    @run ascii_builtins start
      [Line "2"; Line "1"; Line "4"; Line "1"; Line "rock"; Rand 2;
       Line ""; Line "2"; Line "2"]
    = Some (acts, (Settings, g))
    /\ scores g !! "Player 1" = Some 1
    /\ @step ascii_builtins (Settings, g) (Line "3")
       = Some (Quiet, (Settings, reset_settings g))
    /\ scores (reset_settings g) !! "Player 1" = Some 1
    /\ ~ scores_reset_by_settings.
Proof.
  do 2 eexists. split; [reflexivity|]. split; [reflexivity|].
  split; [reflexivity|]. split; [reflexivity|].
  intros Hclaim. specialize (Hclaim (set_scores init (<["Player 1" := 1]> (scores init)))).
  destruct Hclaim as [Hclaim _]. discriminate Hclaim.
Qed.

(** *** Menus *)

(** C6, as the code has it.  At the menu after a round, the play-again
    option starts the next round at participant 1's choice, the option of
    the game's own menu leads to its main menu, the option back to the top
    menu (and the menu word) ends [play], returning to the launcher, and
    any other input shows the same menu again; the object is unchanged in
    all four cases. *)
Theorem after_game_menu_options `{Builtins} (g : game) (line : string) :
  let choice := py_strip (py_lower line) in
  (choice ∈ ["1"; "play again"; "p"] ->
   step (PostRound, g) (Line line) = Some (Quiet, (Choice1, g)))
  /\ (choice ∈ ["2"; "rock-paper-scissors menu"; "r"] ->
      step (PostRound, g) (Line line) = Some (Quiet, (MainMenu, g)))
  /\ (choice ∈ ["3"; "back to main menu"; "b"; "menu"; "main menu"] ->
      step (PostRound, g) (Line line) = Some (Quiet, (Exit, g)))
  /\ (choice ∉ ["1"; "play again"; "p"; "2"; "rock-paper-scissors menu"; "r";
                "3"; "back to main menu"; "b"; "menu"; "main menu"] ->
      has_scores g ->
      step (PostRound, g) (Line line) = Some (Quiet, (PostRound, g))).
Proof.
  intros choice. subst choice. cbn [step].
  split; [|split; [|split]]; intros Hin.
  - menu_in Hin.
  - menu_in Hin.
  - menu_in Hin.
  - intros ([v1 H1] & [v2 H2]).
    rewrite !(proj2 (among_false _ _)).
    + unfold after_game_menu, print_scores, score. rewrite H1, H2. reflexivity.
    + intros Hx. apply Hin. clear -Hx. cbn [app menu_choices] in Hx.
      repeat (apply elem_of_cons in Hx as [->|Hx]; [repeat constructor|]).
      apply elem_of_nil in Hx. contradiction.
    + intros Hx. apply Hin. clear -Hx.
      repeat (apply elem_of_cons in Hx as [->|Hx]; [repeat constructor|]).
      apply elem_of_nil in Hx. contradiction.
    + intros Hx. apply Hin. clear -Hx.
      repeat (apply elem_of_cons in Hx as [->|Hx]; [repeat constructor|]).
      apply elem_of_nil in Hx. contradiction.
Qed.

Lemma after_game_menu_options_witness :
  @step ascii_builtins (PostRound, init) (Line " R ") = Some (Quiet, (MainMenu, init))
  /\ @step ascii_builtins (PostRound, init) (Line "what?") = Some (Quiet, (PostRound, init)).
Proof.
  split.
  - apply (proj1 (proj2 (@after_game_menu_options ascii_builtins init " R "))).
    vm_compute. repeat constructor.
  - apply (proj2 (proj2 (proj2 (@after_game_menu_options ascii_builtins init "what?")))).
    + apply (proj1 (bool_decide_eq_false _)). reflexivity.
    + split; eexists; reflexivity.
Defined.

(** The option back to the top menu leaves the engine instead of showing
    its main menu. *)
Lemma top_menu_option_exits :
  @step ascii_builtins (PostRound, init) (Line "3") = Some (Quiet, (Exit, init))
  /\ ~ @top_menu_option_to_main_menu ascii_builtins.
Proof.
  split; [reflexivity|]. intros Hclaim.
  specialize (Hclaim init "3"). discriminate Hclaim.
  repeat constructor.
Qed.

(** C4, as the code has it.  The menu word typed at either prompt for a
    choice leads to the main menu with the object unchanged, the choice
    participant 1 made being dropped; typed as a name it leads to the main
    menu with the scores, the settings and [has_names] unchanged; typed at
    the main menu or at the menu after a round it ends [play], control
    going back to the launcher, with the object unchanged; the two pauses
    go on whatever is typed. *)
Theorem menu_word `{Builtins} (g : game) (line : string) :
  (py_strip (py_lower line) ∈ menu_choices ->
   step (Choice1, g) (Line line) = Some (Quiet, (MainMenu, g))
   /\ (forall player1_choice,
        step (Choice2 player1_choice, g) (Line line) = Some (Quiet, (MainMenu, g)))
   /\ step (MainMenu, g) (Line line) = Some (Quiet, (Exit, g))
   /\ step (PostRound, g) (Line line) = Some (Quiet, (Exit, g)))
  /\ (py_lower (py_strip line) ∈ menu_choices ->
      forall at_, at_ = NameP1 \/ at_ = NameP2 ->
      exists g', step (at_, g) (Line line) = Some (Quiet, (MainMenu, g'))
        /\ scores g' = scores g /\ has_names g' = has_names g
        /\ require_names g' = require_names g
        /\ two_player_mode g' = two_player_mode g)
  /\ step (NamesPause, g) (Line line) = Some (Quiet, (Choice1, set_has_names g true))
  /\ step (RoundPause, g) (Line line) = Some (Quiet, after_game_menu g).
Proof.
  split; [|split; [|split; reflexivity]].
  - intros Hin. cbn [step]. repeat split; try intros player1_choice; menu_in Hin.
  - intros Hin at_ [-> | ->]; cbn [step]; eexists;
      cbn [set_player1_name set_player2_name player1_name player2_name];
      rewrite (proj2 (among_true _ _) Hin); repeat split.
Qed.

Lemma menu_word_witness :
  @step ascii_builtins (Choice2 ROCK, init) (Line "Main Menu") = Some (Quiet, (MainMenu, init))
  /\ exists g', @step ascii_builtins (NameP1, init) (Line " menu") = Some (Quiet, (MainMenu, g'))
               /\ scores g' = scores init /\ has_names g' = false.
Proof.
  split.
  - apply (proj1 (@menu_word ascii_builtins init "Main Menu")). vm_compute. repeat constructor.
  - destruct (proj1 (proj2 (@menu_word ascii_builtins init " menu")))
      with (at_ := NameP1) as (g' & Hs & Hsc & Hn & _).
    + vm_compute. repeat constructor.
    + now left.
    + exists g'. repeat split; assumption.
Defined.

(** At the menu after a round and at the main menu the menu word ends
    [play] instead of showing the main menu. *)
Lemma menu_word_not_everywhere :
  @step ascii_builtins (PostRound, init) (Line "menu") = Some (Quiet, (Exit, init))
  /\ @step ascii_builtins (MainMenu, init) (Line "menu") = Some (Quiet, (Exit, init))
  /\ ~ @menu_word_everywhere ascii_builtins.
Proof.
  split; [reflexivity|]. split; [reflexivity|]. intros Hclaim.
  specialize (Hclaim PostRound init "menu" eq_refl). discriminate Hclaim.
  repeat constructor.
Qed.

(** The settings menu does not list the menu word: it shows itself
    again. *)
Example settings_menu_word :
  @step ascii_builtins (Settings, init) (Line "menu") = Some (Quiet, (Settings, init)).
Proof. reflexivity. Qed.

(** The word typed at the first name prompt is kept as the name. *)
Example name_prompt_menu_word :
  @step ascii_builtins (NameP1, init) (Line "Menu")
  = Some (Quiet, (MainMenu, set_player1_name init "Menu")).
Proof. reflexivity. Qed.

(** *** Settings *)

(** C7. Toggling the two-player mode in the settings menu names
    participant 2 "Player 2" exactly when, after the toggle, the mode is on
    and names are not required, and "The Bot" for every other value of the
    two flags. *)
Theorem toggle_two_player_name `{Builtins} (g : game) (line : string) :
  py_strip (py_lower line) ∈ ["2"; "two player mode"; "t"] ->
  exists g', step (Settings, g) (Line line) = Some (Quiet, (Settings, g'))
    /\ two_player_mode g' = negb (two_player_mode g)
    /\ require_names g' = require_names g
    /\ (two_player_mode g' = true /\ require_names g' = false ->
        player2_name g' = "Player 2")
    /\ (~ (two_player_mode g' = true /\ require_names g' = false) ->
        player2_name g' = "The Bot")
    /\ (player2_name g' = "Player 2"
        <-> two_player_mode g' = true /\ require_names g' = false).
Proof.
  intros Hin. exists (toggle_two_player_mode g). split.
  - cbn [step]. menu_in Hin.
  - unfold toggle_two_player_mode. cbn.
    destruct (two_player_mode g), (require_names g); cbn;
      repeat split; intros; try reflexivity; try discriminate;
      solve [intuition discriminate | exfalso; intuition].
Qed.

Lemma toggle_two_player_name_witness :
  exists g', @step ascii_builtins (Settings, toggle_require_names init) (Line "T")
             = Some (Quiet, (Settings, g'))
    /\ player2_name g' = "Player 2".
Proof.
  destruct (@toggle_two_player_name ascii_builtins (toggle_require_names init) "T")
    as (g' & Hs & H2 & Hr & Hp & _).
  - vm_compute. repeat constructor.
  - exists g'. split; [exact Hs|]. apply Hp. rewrite H2, Hr. split; reflexivity.
Defined.

(** C8. Toggling the requirement of names in the settings menu sets
    [has_names] to false whatever the two flags were. *)
Theorem toggle_require_names_clears `{Builtins} (g : game) (line : string) :
  py_strip (py_lower line) ∈ ["1"; "require names"; "n"] ->
  exists g', step (Settings, g) (Line line) = Some (Quiet, (Settings, g'))
    /\ require_names g' = negb (require_names g)
    /\ has_names g' = false.
Proof.
  intros Hin. exists (toggle_require_names g). split; [|split; reflexivity].
  cbn [step]. menu_in Hin.
Qed.

Lemma toggle_require_names_clears_witness :
  exists g', @step ascii_builtins (Settings, set_has_names init true) (Line "n")
             = Some (Quiet, (Settings, g'))
    /\ require_names g' = false /\ has_names g' = false.
Proof.
  destruct (@toggle_require_names_clears ascii_builtins (set_has_names init true) "n")
    as (g' & Hs & Hr & Hn).
  - vm_compute. repeat constructor.
  - exists g'. repeat split; assumption.
Defined.
End RockPaperScissorsProps.

(** ** Properties of the validators *)

Module ValidationProps.
Import Python Utility Validation.

Lemma validate_refused `{Builtins} (min_value max_value : option Z)
    (line : string) (rest : list string) :
  refused min_value max_value line ->
  validate_integer_input min_value max_value (line :: rest)
  = validate_integer_input min_value max_value rest.
Proof.
  unfold refused. cbn [validate_integer_input].
  destruct (py_int line) as [n|]; [|reflexivity].
  intros [-> | Ha]; [reflexivity|]. rewrite Ha. now destruct (below min_value n).
Qed.

Lemma validate_skips `{Builtins} (min_value max_value : option Z)
    (skipped rest : list string) :
  Forall (refused min_value max_value) skipped ->
  validate_integer_input min_value max_value (skipped ++ rest)%list
  = validate_integer_input min_value max_value rest.
Proof.
  induction 1 as [|line skipped Hline _ IH]; [reflexivity|].
  cbn [app]. now rewrite validate_refused.
Qed.

(** X1. [validate_integer_input] returns exactly the first line that reads as
    an integer within the bounds, together with the lines after it; the
    lines before it are the refused ones. *)
Theorem validate_integer_input_first `{Builtins} (min_value max_value : option Z)
    (stdin : list string) (n : Z) (rest : list string) :
  validate_integer_input min_value max_value stdin = Ok (n, rest)
  <-> exists skipped line,
        stdin = (skipped ++ line :: rest)%list
        /\ Forall (refused min_value max_value) skipped
        /\ py_int line = Some n
        /\ below min_value n = false /\ above max_value n = false.
Proof.
  split.
  - induction stdin as [|l stdin IH]; [discriminate|].
    cbn [validate_integer_input].
    destruct (py_int l) as [m|] eqn:Hl.
    + destruct (below min_value m) eqn:Hb; [|destruct (above max_value m) eqn:Ha].
      * intros Hv. destruct (IH Hv) as (sk & line & -> & Hsk & Hrest).
        exists (l :: sk), line. split; [reflexivity|]. split; [|exact Hrest].
        constructor; [|exact Hsk]. unfold refused. rewrite Hl. now left.
      * intros Hv. destruct (IH Hv) as (sk & line & -> & Hsk & Hrest).
        exists (l :: sk), line. split; [reflexivity|]. split; [|exact Hrest].
        constructor; [|exact Hsk]. unfold refused. rewrite Hl. now right.
      * intros [= <- <-]. exists [], l. repeat split; auto.
    + intros Hv. destruct (IH Hv) as (sk & line & -> & Hsk & Hrest).
      exists (l :: sk), line. split; [reflexivity|]. split; [|exact Hrest].
      constructor; [|exact Hsk]. unfold refused. now rewrite Hl.
  - intros (sk & line & -> & Hsk & Hline & Hb & Ha).
    rewrite validate_skips by assumption.
    cbn [validate_integer_input]. now rewrite Hline, Hb, Ha.
Qed.

Lemma validate_integer_input_first_witness :
  @validate_integer_input ascii_builtins (Some 1) (Some 6) ["six"; "0"; "7"; " 6"; "2"]
  = Ok (6, ["2"]).
Proof.
  apply (proj2 (@validate_integer_input_first ascii_builtins (Some 1) (Some 6)
                  ["six"; "0"; "7"; " 6"; "2"] 6 ["2"])).
  exists ["six"; "0"; "7"], " 6". split; [reflexivity|].
  split; [|repeat split].
  repeat (constructor; [vm_compute; auto|]). constructor.
Defined.

(** X2. When the lower bound exceeds the upper bound no line is ever
    accepted: the call ends only when the input does. *)
Theorem validate_integer_input_empty_range `{Builtins} (lo hi : Z) (stdin : list string) :
  hi < lo ->
  validate_integer_input (Some lo) (Some hi) stdin = Raise EOFError.
Proof.
  intros Hlt. induction stdin as [|l stdin IH]; [reflexivity|].
  cbn [validate_integer_input below above].
  destruct (py_int l) as [m|]; [|exact IH].
  destruct (Z.ltb_spec m lo); [exact IH|].
  destruct (Z.ltb_spec hi m); [exact IH|lia].
Qed.

Lemma validate_integer_input_empty_range_witness :
  @validate_integer_input ascii_builtins (Some 5) (Some 4) ["4"; "5"; "x"] = Raise EOFError.
Proof.
  apply (@validate_integer_input_empty_range ascii_builtins 5 4). reflexivity.
Defined.

(** What [validate_integer_input] returns respects both bounds. *)
Lemma validate_bounds `{Builtins} (min_value max_value : option Z)
    (stdin : list string) (n : Z) (rest : list string) :
  validate_integer_input min_value max_value stdin = Ok (n, rest) ->
  (forall lo, min_value = Some lo -> lo <= n)
  /\ (forall hi, max_value = Some hi -> n <= hi)
  /\ (length rest < length stdin)%nat.
Proof.
  intros Hv. apply validate_integer_input_first in Hv
    as (sk & line & -> & _ & _ & Hb & Ha).
  split; [|split].
  - intros lo ->. cbn in Hb. lia.
  - intros hi ->. cbn in Ha. lia.
  - rewrite length_app. cbn. lia.
Qed.

Lemma yes_no_skips `{Builtins} (skipped rest : list string) :
  Forall unclear skipped ->
  get_yes_no_input (skipped ++ rest)%list = get_yes_no_input rest.
Proof.
  induction 1 as [|line skipped Hline _ IH]; [reflexivity|].
  cbn [app get_yes_no_input]. unfold unclear in Hline. now rewrite Hline.
Qed.

(** X3. [get_yes_no_input] returns the answer of the first line that is, once
    lowered and stripped, one of y, yes, n, no; every line before it is
    asked again. *)
Theorem get_yes_no_input_first `{Builtins} (stdin : list string) (answer : bool)
    (rest : list string) :
  get_yes_no_input stdin = Ok (answer, rest)
  <-> exists skipped line,
        stdin = (skipped ++ line :: rest)%list
        /\ Forall unclear skipped
        /\ (if answer then py_strip (py_lower line) ∈ ["y"; "yes"]
            else py_strip (py_lower line) ∈ ["n"; "no"]).
Proof.
  split.
  - induction stdin as [|l stdin IH]; [discriminate|].
    cbn [get_yes_no_input]. destruct (get_yes_no_input_pass l) as [b|] eqn:Hl.
    + intros [= <- <-]. exists [], l. split; [reflexivity|]. split; [constructor|].
      unfold get_yes_no_input_pass, among in Hl.
      repeat case_bool_decide; destruct b; try discriminate; assumption.
    + intros Hv. destruct (IH Hv) as (sk & line & -> & Hsk & Hrest).
      exists (l :: sk), line. split; [reflexivity|]. split; [|exact Hrest].
      constructor; assumption.
  - intros (sk & line & -> & Hsk & Hline).
    rewrite yes_no_skips by assumption. cbn [get_yes_no_input].
    unfold get_yes_no_input_pass, among. destruct answer.
    + now rewrite bool_decide_eq_true_2.
    + rewrite bool_decide_eq_false_2, bool_decide_eq_true_2; [reflexivity|assumption|].
      intros Hy. revert Hline Hy. generalize (py_strip (py_lower line)). intros c.
      rewrite !elem_of_cons, !elem_of_nil. intros [->|[->|[]]] [?|[?|[]]]; discriminate.
Qed.

Lemma get_yes_no_input_first_witness :
  @get_yes_no_input ascii_builtins ["maybe"; ""; " No"; "y"] = Ok (false, ["y"]).
Proof.
  apply (proj2 (@get_yes_no_input_first ascii_builtins ["maybe"; ""; " No"; "y"] false ["y"])).
  exists ["maybe"; ""], " No". split; [reflexivity|]. split.
  - repeat constructor.
  - vm_compute. repeat constructor.
Defined.

End ValidationProps.

(** ** Properties of the number guessing game *)

Module NumberGuessingProps.
Import Python Utility Validation NumberGuessing ValidationProps.

Lemma range_nil (a b : Z) : b <= a -> range a b = [].
Proof. intros Hle. unfold range. replace (Z.to_nat (b - a)) with 0%nat by lia. reflexivity. Qed.

Lemma range_cons (a b : Z) : a < b -> range a b = a :: range (a + 1) b.
Proof.
  intros Hlt. unfold range.
  replace (Z.to_nat (b - a)) with (S (Z.to_nat (b - (a + 1)))) by lia.
  cbn [seq map]. f_equal; [lia|].
  rewrite <- seq_shift, map_map. apply map_ext. intros k. lia.
Qed.

(** X4. [setup_game] leaves at least one attempt, a range that is not empty,
    a target and no guesses; the only way it fails is the end of the
    input. *)
Theorem setup_game_ready `{Builtins} (g : game) (stdin : list string) (k : nat) :
  (forall g' rest,
     setup_game g stdin k = Ok (g', rest) ->
     1 <= attempts g' /\ min_num g' <= max_num g' /\ guesses g' = []
     /\ target_number g' = Some (min_num g' + Z.of_nat k)
     /\ (drawn (min_num g') (max_num g') k ->
         min_num g' <= min_num g' + Z.of_nat k <= max_num g')
     /\ (length rest + 3 <= length stdin)%nat)
  /\ (forall e, setup_game g stdin k = Raise e -> e = EOFError).
Proof.
  unfold setup_game.
  destruct (validate_integer_input (Some 1) None stdin) as [[a r1]|e1] eqn:H1; cbn.
  2:{ split; [discriminate|]. intros e [= <-]. revert H1. clear.
      induction stdin as [|l stdin IH]; cbn; [congruence|].
      destruct (py_int l); [|exact IH]. destruct (_ <? _); [exact IH|discriminate]. }
  destruct (validate_integer_input None None r1) as [[hi r2]|e2] eqn:H2; cbn.
  2:{ split; [discriminate|]. intros e [= <-]. revert H2. clear.
      induction r1 as [|l stdin IH]; cbn; [congruence|].
      destruct (py_int l); [discriminate|exact IH]. }
  destruct (validate_integer_input None (Some hi) r2) as [[lo r3]|e3] eqn:H3; cbn.
  2:{ split; [discriminate|]. intros e [= <-]. revert H3. clear.
      induction r2 as [|l stdin IH]; cbn; [congruence|].
      destruct (py_int l); [|exact IH]. destruct (_ <? _); [exact IH|discriminate]. }
  apply validate_bounds in H1 as (Ha & _ & Hl1).
  apply validate_bounds in H2 as (_ & _ & Hl2).
  apply validate_bounds in H3 as (_ & Hlo & Hl3).
  specialize (Ha 1 eq_refl). specialize (Hlo hi eq_refl).
  unfold randint. destruct (Z.ltb_spec hi lo); [lia|]. cbn.
  split; [|discriminate]. intros g' rest [= <- <-]. cbn.
  unfold drawn. repeat split; try lia.
Qed.

Lemma setup_game_ready_witness :
  exists g', @setup_game ascii_builtins init ["0"; "3"; "10"; "11"; "4"; "7"] 2
             = Ok (g', ["7"])
             /\ 1 <= attempts g' /\ target_number g' = Some 6.
Proof.
  eexists. split; [reflexivity|].
  destruct (proj1 (@setup_game_ready ascii_builtins init
                     ["0"; "3"; "10"; "11"; "4"; "7"] 2) _ _ eq_refl)
    as (Ha & _ & _ & Ht & _).
  split; [exact Ha|exact Ht].
Defined.

(** The [for] loop of the guesses over the attempt numbers from [a] up to
    [b - 1]. *)
Lemma guess_loop_spec `{Builtins} (n : nat) :
  forall (g : game) (a b : Z) (last : option Z) (stdin : list string) (t : Z)
         (g' : game) (last' : option Z) (win : bool) (rest : list string),
  n = Z.to_nat (b - a) ->
  target_number g = Some t ->
  guess_loop g (range a b) last stdin = Done (g', last', win, rest) ->
  exists new,
    guesses g' = (guesses g ++ new)%list
    /\ min_num g' = min_num g /\ max_num g' = max_num g
    /\ attempts g' = attempts g /\ target_number g' = Some t
    /\ Forall (fun x => min_num g <= x <= max_num g) new
    /\ Z.of_nat (length new) <= Z.max 0 (b - a)
    /\ (new = [] -> last' = last /\ win = false)
    /\ (new <> [] -> last' = Some (a + Z.of_nat (length new) - 1))
    /\ (win = true -> exists pre, new = (pre ++ [t])%list /\ (t ∉ pre))
    /\ (win = false -> (t ∉ new) /\ Z.of_nat (length new) = Z.max 0 (b - a)).
Proof.
  induction n as [|n IH]; intros g a b last stdin t g' last' win rest Hn Ht Hloop.
  - rewrite range_nil in Hloop by lia. injection Hloop as <- <- <- <-.
    exists []. rewrite app_nil_r. repeat split; auto; try discriminate.
    all: cbn; try lia; try congruence; apply not_elem_of_nil.
  - rewrite range_cons in Hloop by lia. cbn [guess_loop] in Hloop.
    unfold get_guess in Hloop.
    destruct (validate_integer_input _ _ stdin) as [[x r]|e] eqn:Hv; [|discriminate].
    apply validate_bounds in Hv as (Hlo & Hhi & _).
    specialize (Hlo _ eq_refl). specialize (Hhi _ eq_refl).
    cbn [lift and_then fst snd] in Hloop.
    unfold check_guess in Hloop. cbn [append_guess target_number] in Hloop.
    rewrite Ht in Hloop. destruct (Z.eqb_spec x t) as [->|Hne]; cbn in Hloop.
    + injection Hloop as <- <- <- <-. exists [t]. cbn.
      split; [reflexivity|]. do 3 (split; [reflexivity|]). split; [exact Ht|].
      split; [repeat constructor; lia|]. split; [lia|].
      split; [discriminate|]. split; [intros _; f_equal; lia|].
      split; [|discriminate].
      intros _. exists []. split; [reflexivity|apply not_elem_of_nil].
    + apply IH with (t := t) in Hloop; [|lia|exact Ht].
      destruct Hloop as (new & Hg & Hmin & Hmax & Hat & Htg & Hall & Hlen
                         & Hnil & Hlast & Hwin & Hlose).
      cbn in Hg, Hmin, Hmax, Hat, Hall.
      exists (x :: new). rewrite Hg, <- app_assoc. cbn [app length].
      split; [reflexivity|]. do 4 (split; [assumption|]).
      split; [constructor; [lia|assumption]|]. split; [lia|].
      split; [discriminate|]. split; [|split].
      * intros _. destruct new as [|y new].
        -- destruct (Hnil eq_refl) as [-> _]. f_equal. cbn. lia.
        -- rewrite Hlast by discriminate. f_equal. cbn [length]. lia.
      * intros Hw. destruct (Hwin Hw) as (pre & -> & Hpre).
        exists (x :: pre). split; [reflexivity|].
        rewrite elem_of_cons. intros [?|?]; [congruence|contradiction].
      * intros Hw. destruct (Hlose Hw) as [Hnot Hl]. split; [|lia].
        rewrite elem_of_cons. intros [?|?]; [congruence|contradiction].
Qed.

(** X5. One game of [play]: the guesses list holds this game's guesses only,
    between one and [attempts] of them, each within the range; the game is
    won exactly when the target is among them, and then it is the last
    guess and no earlier one; a lost game uses every attempt. *)
Theorem play_pass_game `{Builtins} (g : game) (stdin : list string) (k : nat)
    (sm : summary) (g' : game) (again : bool) (rest : list string) :
  play_pass g stdin k = Done (sm, g', again, rest) ->
  exists t,
    target_number g' = Some t /\ target sm = Some t
    /\ your_guesses sm = guesses g'
    /\ attempts_used sm = Z.of_nat (length (guesses g'))
    /\ 1 <= attempts_used sm <= attempts g'
    /\ Forall (fun x => min_num g' <= x <= max_num g') (guesses g')
    /\ (won sm = true <-> t ∈ guesses g')
    /\ (forall pre x, guesses g' = (pre ++ [x])%list -> t ∉ pre)
    /\ (won sm = false -> attempts_used sm = attempts g').
Proof.
  unfold play_pass.
  destruct (setup_game g stdin k) as [[g1 r1]|e] eqn:Hs; [|discriminate].
  apply (proj1 (setup_game_ready g stdin k)) in Hs as (Ha & _ & Hg1 & Ht & _).
  cbn [lift and_then fst snd].
  destruct (guess_loop g1 _ None r1) as [[[[g2 an] win] r2]|e] eqn:Hl; [|discriminate].
  cbn [and_then].
  pose proof (guess_loop_spec _ g1 1 (attempts g1 + 1) None r1 _ g2 an win r2 eq_refl Ht Hl)
    as (new & Hg & Hmin & Hmax & Hat & Htg & Hall & Hlen & Hnil & Hlast & Hwin & Hlose).
  rewrite Hg1 in Hg. cbn [app] in Hg.
  destruct an as [attempt|]; [|discriminate].
  destruct (get_yes_no_input r2) as [[ans r3]|e]; [|discriminate].
  cbn. intros [= <- <- <- <-]. cbn.
  assert (new <> []) as Hne.
  { intros ->. destruct (Hnil eq_refl) as [Hx _]. discriminate. }
  specialize (Hlast Hne). injection Hlast as ->.
  exists (min_num g1 + Z.of_nat k). rewrite Hg, Hmin, Hmax, Hat.
  assert (0 < Z.of_nat (length new)) by (destruct new; [contradiction|cbn; lia]).
  split; [assumption|]. split; [assumption|]. split; [reflexivity|].
  split; [lia|]. split; [lia|]. split; [assumption|]. split; [|split].
  - split.
    + intros Hw. destruct (Hwin Hw) as (pre & -> & _).
      apply elem_of_app. right. apply elem_of_cons. now left.
    + intros Hin. destruct win; [reflexivity|]. now destruct (Hlose eq_refl).
  - intros pre x Hx. destruct win.
    + destruct (Hwin eq_refl) as (pre' & Hp & Hnot). rewrite Hp in Hx.
      apply app_inj_tail in Hx as [-> _]. assumption.
    + destruct (Hlose eq_refl) as [Hnot _]. intros Hin. apply Hnot.
      rewrite Hx. apply elem_of_app. now left.
  - intros ->. destruct (Hlose eq_refl) as [_ Hl']. lia.
Qed.

Lemma play_pass_game_witness :
  exists sm g',
    @play_pass ascii_builtins init ["3"; "10"; "1"; "4"; "eleven"; "6"; "n"] 5
    = Done (sm, g', false, [])
    /\ won sm = true /\ attempts_used sm = 2 /\ guesses g' = [4; 6].
Proof.
  do 2 eexists. split; [reflexivity|].
  destruct (@play_pass_game ascii_builtins init
              ["3"; "10"; "1"; "4"; "eleven"; "6"; "n"] 5 _ _ _ _ eq_refl)
    as (t & Ht & _ & _ & Hu & _ & _ & Hw & _).
  injection Ht as <-.
  split; [apply Hw; vm_compute; repeat constructor|]. split; [exact Hu|reflexivity].
Defined.

(** X6. A pass of [play] fails only when the input ends: the target is set
    and the loop variable bound before they are used. *)
Theorem play_pass_failure `{Builtins} (g : game) (stdin : list string) (k : nat)
    (e : error) :
  play_pass g stdin k = Fail e -> e = Exn EOFError.
Proof.
  unfold play_pass.
  destruct (setup_game g stdin k) as [[g1 r1]|x] eqn:Hs.
  2:{ cbn. intros [= <-]. now rewrite (proj2 (setup_game_ready g stdin k) x Hs). }
  apply (proj1 (setup_game_ready g stdin k)) in Hs as (Ha & _ & Hg1 & Ht & _).
  cbn [lift and_then fst snd].
  assert (forall n g a b last stdin x,
            n = Z.to_nat (b - a) -> is_Some (target_number g) ->
            guess_loop g (range a b) last stdin = Fail x -> x = Exn EOFError) as Hfail.
  { clear. induction n as [|n IH]; intros g a b last stdin x Hn [t Ht].
    - rewrite range_nil by lia. discriminate.
    - rewrite range_cons by lia. cbn [guess_loop]. unfold get_guess.
      destruct (validate_integer_input _ _ stdin) as [[y r]|e] eqn:Hv.
      + cbn [lift and_then fst snd]. unfold check_guess.
        cbn [append_guess target_number]. rewrite Ht.
        destruct (y =? t); cbn; [discriminate|].
        apply IH; [lia|]. cbn. eauto.
      + cbn. intros [= <-]. revert Hv. clear.
        induction stdin as [|l stdin IH]; cbn; [congruence|].
        destruct (py_int l); [|exact IH].
        destruct (_ <? _); [exact IH|]. destruct (_ <? _); [exact IH|discriminate]. }
  destruct (guess_loop g1 _ None r1) as [[[[g2 an] win] r2]|x] eqn:Hl.
  - cbn [and_then].
    pose proof (guess_loop_spec _ g1 1 (attempts g1 + 1) None r1 _ g2 an win r2 eq_refl Ht Hl)
      as (new & _ & _ & _ & _ & _ & _ & Hlen & Hnil & Hlast & _ & Hlose).
    destruct an as [attempt|].
    + destruct (get_yes_no_input r2) as [[ans r3]|x] eqn:Hy; cbn; [discriminate|].
      intros [= <-]. revert Hy. clear.
      induction r2 as [|l stdin IH]; cbn; [congruence|].
      destruct (get_yes_no_input_pass l); [discriminate|exact IH].
    + exfalso. destruct new as [|y new].
      * destruct (Hnil eq_refl) as [_ ->]. destruct (Hlose eq_refl) as [_ Hl']. cbn in Hl'. lia.
      * specialize (Hlast ltac:(discriminate)). discriminate.
  - cbn. intros [= <-]. eapply Hfail; [reflexivity| |exact Hl]. rewrite Ht. eauto.
Qed.

Lemma play_pass_failure_witness :
  @play_pass ascii_builtins init ["3"; "10"; "1"; "4"] 5 = Fail (Exn EOFError).
Proof.
  destruct (@play_pass ascii_builtins init ["3"; "10"; "1"; "4"] 5) as [r|e] eqn:Hp.
  - discriminate Hp.
  - f_equal. exact (@play_pass_failure ascii_builtins init ["3"; "10"; "1"; "4"] 5 e Hp).
Defined.

(** X7. The summary lists every guess once, as even or as odd, negative
    guesses included, in the order they were made. *)
Theorem print_summary_parity (g : game) (attempt : Z) (win : bool) :
  let sm := print_summary g attempt win in
  even_guesses sm = List.filter Z.even (guesses g)
  /\ odd_guesses sm = List.filter Z.odd (guesses g)
  /\ (forall x, x ∈ guesses g ->
        (x ∈ even_guesses sm /\ x ∉ odd_guesses sm)
        \/ (x ∈ odd_guesses sm /\ x ∉ even_guesses sm))
  /\ (length (even_guesses sm) + length (odd_guesses sm) = length (guesses g))%nat.
Proof.
  cbn.
  assert (forall x, (x mod 2 =? 0) = Z.even x) as He.
  { intros x. rewrite Zeven_mod. reflexivity. }
  assert (forall x, negb (x mod 2 =? 0) = Z.odd x) as Ho.
  { intros x. rewrite He, Z.negb_even. reflexivity. }
  rewrite (List.filter_ext _ _ He), (List.filter_ext _ _ Ho).
  split; [reflexivity|]. split; [reflexivity|]. split.
  - intros x Hx. apply list_elem_of_In in Hx.
    rewrite !list_elem_of_In, !List.filter_In.
    destruct (Z.even x) eqn:Hev.
    + left. split; [auto|]. rewrite <- Z.negb_even, Hev. intros [_ ?]. discriminate.
    + right. rewrite <- Z.negb_even, Hev. split; [auto|]. intros [_ ?]. discriminate.
  - induction (guesses g) as [|x l IH]; [reflexivity|]. cbn.
    rewrite <- Z.negb_even. destruct (Z.even x); cbn; lia.
Qed.

Lemma print_summary_parity_witness :
  let g := {| min_num := -5; max_num := 5; attempts := 3;
              target_number := Some 1; guesses := [4; -3; -2] |} in
  even_guesses (print_summary g 3 false) = [4; -2]
  /\ odd_guesses (print_summary g 3 false) = [-3].
Proof.
  intros g. split.
  - exact (proj1 (print_summary_parity g 3 false)).
  - exact (proj1 (proj2 (print_summary_parity g 3 false))).
Defined.

End NumberGuessingProps.

(** ** Properties of the dice roller *)

Module DiceRollerProps.
Import Python Utility Validation DiceRoller ValidationProps.

(** X8. A pass of the dice roller always rolls: the number of sides is at
    least two, so the range of [random.randint] is never empty and the
    [except] clause never runs; the roll lies between 1 and the number of
    sides. *)
Theorem play_pass_rolls `{Builtins} (stdin : list string) (k : nat) (p : pass) :
  play_pass stdin k = Ok p ->
  exists sides again rest,
    p = Rolled sides (1 + Z.of_nat k) again rest
    /\ MIN_DICE_SIDES <= sides
    /\ (drawn 1 sides k -> 1 <= 1 + Z.of_nat k <= sides).
Proof.
  unfold play_pass.
  destruct (validate_integer_input _ None stdin) as [[sides r]|e] eqn:Hv; [|discriminate].
  apply validate_bounds in Hv as (Hlo & _). specialize (Hlo _ eq_refl).
  cbn [bind fst snd]. unfold randint, MIN_DICE_SIDES in *.
  destruct (Z.ltb_spec sides 1); [lia|].
  destruct (get_yes_no_input r) as [[again rest]|e]; [|discriminate].
  cbn. intros [= <-]. exists sides, again, rest. unfold drawn. repeat split; lia.
Qed.

Lemma play_pass_rolls_witness :
  exists again rest,
    @play_pass ascii_builtins ["1"; "6"; "y"] 3 = Ok (Rolled 6 4 again rest).
Proof.
  destruct (@play_pass_rolls ascii_builtins ["1"; "6"; "y"] 3 _ eq_refl)
    as (sides & again & rest & Hp & _).
  injection Hp as <- <- <-. do 2 eexists. reflexivity.
Defined.

End DiceRollerProps.

(** ** More properties of the grid game *)

Module TicTacToeExtraProps.
Import Python Utility TicTacToe TicTacToeExtra TicTacToeProps.

Lemma declined_again `{Builtins} (s : game) (line : string) :
  declined s line -> get_user_move_pass line s = Ok (Again s).
Proof.
  unfold get_user_move_pass. intros [->|(n & -> & Hn)]; [reflexivity|].
  now rewrite (proj2 (contains_false n _) Hn).
Qed.

Lemma get_user_move_skips `{Builtins} (s : game) (skipped rest : list string) :
  Forall (declined s) skipped ->
  get_user_move (skipped ++ rest)%list s = get_user_move rest s.
Proof.
  induction 1 as [|line skipped Hline _ IH]; [reflexivity|].
  cbn [app get_user_move]. rewrite (declined_again s line Hline). exact IH.
Qed.

(** X9. [get_user_move] returns on the first line that reads as an available
    position, after asking again for every line before it; what it returns
    is the placement at that position and the lines after it.  On a state
    of a game it raises nothing but the end of the input. *)
Theorem get_user_move_first `{Builtins} (s : game) (stdin : list string) :
  wf s = true ->
  (forall s' rest,
     get_user_move stdin s = Ok (s', rest)
     <-> exists skipped line n,
           stdin = (skipped ++ line :: rest)%list
           /\ Forall (declined s) skipped
           /\ py_int line = Some n /\ n ∈ available_moves s
           /\ get_user_move_pass line s = Ok (Return s')
           /\ placement s n s')
  /\ (forall e, get_user_move stdin s = Raise e ->
                e = EOFError /\ Forall (declined s) stdin).
Proof.
  intros Hwf. split.
  - intros s' rest. split.
    + induction stdin as [|l stdin IH]; [discriminate|].
      cbn [get_user_move].
      destruct (get_user_move_pass_cases l s Hwf)
        as [[Hag Hd]|(n & s1 & Hret & Hn & Hin & Hp & _)].
      * rewrite Hag. cbn [bind]. intros Hv.
        destruct (IH Hv) as (sk & line & n & -> & Hsk & Hrest).
        exists (l :: sk), line, n. split; [reflexivity|]. split; [|exact Hrest].
        constructor; assumption.
      * rewrite Hret. cbn [bind]. intros [= <- <-].
        exists [], l, n. split; [reflexivity|]. split; [constructor|].
        repeat (split; [assumption|]). assumption.
    + intros (sk & line & n & -> & Hsk & _ & _ & Hret & _).
      rewrite get_user_move_skips by assumption.
      cbn [get_user_move]. rewrite Hret. reflexivity.
  - induction stdin as [|l stdin IH]; cbn [get_user_move].
    + intros e [= <-]. split; [reflexivity|constructor].
    + destruct (get_user_move_pass_cases l s Hwf)
        as [[Hag Hd]|(n & s1 & Hret & _)].
      * rewrite Hag. cbn [bind]. intros e He. destruct (IH e He) as [-> Hall].
        split; [reflexivity|]. constructor; assumption.
      * rewrite Hret. discriminate.
Qed.

Lemma get_user_move_first_witness :
  exists s', @get_user_move ascii_builtins ["0"; "ten"; "10"; " 7 "; "7"] reset_game
             = Ok (s', ["7"])
             /\ placement reset_game 7 s'.
Proof.
  destruct (get_user_move_pass_cases (H := ascii_builtins) " 7 " reset_game eq_refl)
    as [[Hag _]|(n & s' & Hret & Hn & Hin & Hp & _)]; [discriminate Hag|].
  injection Hn as <-. exists s'. split; [|exact Hp].
  apply (proj1 (@get_user_move_first ascii_builtins reset_game
                  ["0"; "ten"; "10"; " 7 "; "7"] eq_refl)).
  exists ["0"; "ten"; "10"], " 7 ", 7. split; [reflexivity|]. split.
  - repeat (constructor;
            [first [left; reflexivity
                   | right; eexists; split; [reflexivity|];
                     apply (proj1 (bool_decide_eq_false _)); reflexivity]|]).
    constructor.
  - split; [reflexivity|]. split; [exact Hin|]. split; [exact Hret|exact Hp].
Defined.

(** X10. With no available move [get_user_move] accepts no line at all: it
    asks until the input ends. *)
Theorem get_user_move_no_moves `{Builtins} (s : game) (stdin : list string) :
  available_moves s = [] ->
  get_user_move stdin s = Raise EOFError
  /\ (forall line ai_mode,
        step (UserMove ai_mode, s) (Line line) = Some (Quiet, (UserMove ai_mode, s))).
Proof.
  intros Hav.
  assert (forall line, get_user_move_pass line s = Ok (Again s)) as Hag.
  { intros line. apply declined_again. unfold declined.
    destruct (py_int line) as [n|]; [right|now left].
    exists n. split; [reflexivity|]. rewrite Hav. apply not_elem_of_nil. }
  split.
  - induction stdin as [|l stdin IH]; [reflexivity|].
    cbn [get_user_move]. rewrite Hag. exact IH.
  - intros line ai_mode. cbn [step]. rewrite Hag. reflexivity.
Qed.

Lemma get_user_move_no_moves_witness :
  @get_user_move ascii_builtins ["1"; "5"; "9"] drawn_board = Raise EOFError.
Proof.
  exact (proj1 (@get_user_move_no_moves ascii_builtins drawn_board ["1"; "5"; "9"] eq_refl)).
Defined.

(** X11. [get_ai_move] on a state of a game: a draw within the list is a
    placement at the position drawn; with no available move it raises
    [IndexError] whatever the draw. *)
Theorem get_ai_move_draw (s : game) (k : nat) :
  wf s = true ->
  ((k < length (available_moves s))%nat ->
   exists n s', available_moves s !! k = Some n
     /\ get_ai_move k s = Ok s' /\ placement s n s' /\ wf s' = true)
  /\ (available_moves s = [] -> get_ai_move k s = Raise IndexError).
Proof.
  intros Hwf. split.
  - intros Hk. destruct (get_ai_move_cases k s Hwf)
      as [[_ Hnone]|(n & s' & Hok & Hn & Hp & Hwf')].
    + apply lookup_ge_None in Hnone. lia.
    + eauto 10.
  - intros Hav. unfold get_ai_move. rewrite Hav. reflexivity.
Qed.

Lemma get_ai_move_draw_witness :
  exists s', get_ai_move 8 reset_game = Ok s' /\ placement reset_game 9 s'.
Proof.
  destruct (proj1 (get_ai_move_draw reset_game 8 eq_refl))
    as (n & s' & Hn & Hok & Hp & _).
  - vm_compute. lia.
  - injection Hn as <-. exists s'. split; assumption.
Defined.

Lemma first_match_none_inv {A B : Type} (f : A -> option B) (l : list A) :
  first_match f l = None -> forall x, x ∈ l -> f x = None.
Proof.
  induction l as [|a l IH]; intros Hf x Hx.
  - apply elem_of_nil in Hx. contradiction.
  - simpl in Hf. destruct (f a) eqn:Ea; [discriminate|].
    apply elem_of_cons in Hx as [->|Hx]; auto.
Qed.

Lemma holds_three_fills (b : list (list string)) (l : Z * Z * Z) (m : string) :
  holds_three b l = Some m -> is_mark m = true /\ fills b l m.
Proof.
  intros Hh. split; [eapply holds_three_mark; eauto|].
  destruct l as [[p q] r]. unfold holds_three in Hh. unfold fills.
  destruct (is_mark (at_position b p)); [|discriminate]. cbn [andb] in Hh.
  destruct (String.eqb_spec (at_position b p) (at_position b q)) as [E1|]; [|discriminate].
  destruct (String.eqb_spec (at_position b q) (at_position b r)) as [E2|]; [|discriminate].
  injection Hh as <-. repeat split; congruence.
Qed.

Lemma tie_not_mark : is_mark TIE_RESULT = false.
Proof. reflexivity. Qed.

(** The three ways [evaluate] ends. *)
Lemma evaluate_inv (s : game) :
  (exists m l, evaluate s = Some m /\ l ∈ lines /\ holds_three (board s) l = Some m)
  \/ (evaluate s = Some TIE_RESULT /\ no_line (board s) /\ available_moves s = [])
  \/ (evaluate s = None /\ no_line (board s) /\ available_moves s <> []).
Proof.
  unfold evaluate, no_line.
  destruct (first_match (holds_three (board s)) lines) as [m|] eqn:Hf.
  - left. apply first_match_some in Hf as (l & Hl & Hh). eauto.
  - right. pose proof (first_match_none_inv _ _ Hf) as Hnone.
    destruct (available_moves s); [left|right]; repeat split; auto.
Qed.

(** X12. On a state of a game whose every position is taken [check_win] gives
    a winner or the tie, never nothing. *)
Theorem full_board_decided (s : game) :
  wf s = true -> available_moves s = [] -> decided s.
Proof.
  intros Hwf Hav. unfold decided. rewrite (check_win_refines s Hwf).
  destruct (evaluate_inv s) as [(m & l & -> & _ & Hh)|[(-> & _)|(_ & _ & Hne)]].
  - exists m. split; [reflexivity|]. apply holds_three_mark in Hh.
    apply is_mark_spec in Hh. tauto.
  - exists TIE_RESULT. auto.
  - contradiction.
Qed.

Lemma full_board_decided_witness : decided drawn_board.
Proof. apply full_board_decided; reflexivity. Defined.

(** X13. What a result of [check_win] on a state of a game means: a mark is
    returned only when it fills one of the eight lines, the tie only when
    every cell holds a mark and no line holds three identical marks, and
    nothing only when a move is left and no line is complete. *)
Theorem check_win_sound (s : game) :
  wf s = true ->
  (forall m, check_win s = Ok (Some m) -> m <> TIE_RESULT ->
             is_mark m = true /\ exists l, l ∈ lines /\ fills (board s) l m)
  /\ (check_win s = Ok (Some TIE_RESULT) ->
      available_moves s = [] /\ no_line (board s)
      /\ forall n, 1 <= n <= 9 -> is_mark (at_position (board s) n) = true)
  /\ (check_win s = Ok None ->
      available_moves s <> [] /\ no_line (board s)).
Proof.
  intros Hwf. rewrite (check_win_refines s Hwf).
  destruct (evaluate_inv s) as [(m & l & -> & Hl & Hh)|[(-> & Hno & Hav)|(-> & Hno & Hav)]].
  - apply holds_three_fills in Hh as [Hm Hf]. split; [|split].
    + intros m' [= <-] _. eauto.
    + intros [= ->]. discriminate Hm.
    + discriminate.
  - split; [|split].
    + intros m [= <-] Hne. contradiction.
    + intros _. split; [assumption|]. split; [assumption|].
      intros n Hn. pose proof (wf_at_position s n Hwf Hn) as Hc.
      unfold cell_ok in Hc. rewrite Hav in Hc. exact Hc.
    + discriminate.
  - split; [discriminate|]. split; [discriminate|]. auto.
Qed.

Lemma check_win_sound_witness :
  exists l, l ∈ lines /\ fills (board first_row_x) l "X".
Proof.
  destruct (proj1 (check_win_sound first_row_x eq_refl) "X" eq_refl) as (_ & l & Hl).
  - discriminate.
  - exists l. exact Hl.
Defined.


(** *** The loop of [play] *)

Lemma placement_at (s s' : game) (n : Z) :
  placement s n s' ->
  at_position (board s') n = current_player s
  /\ (forall k, 1 <= k <= 9 -> k <> n ->
                at_position (board s') k = at_position (board s) k).
Proof.
  intros (Hn & Hcell & Hother & _). split.
  - unfold at_position. now rewrite Hcell.
  - intros k Hk Hne. unfold at_position. rewrite Hother; [reflexivity|..].
    + split; [apply Z.div_pos; lia|apply Z.div_lt_upper_bound; lia].
    + apply Z.mod_pos_bound. lia.
    + intros [= Hd Hm].
      pose proof (Z.div_mod (k - 1) 3 ltac:(lia)).
      pose proof (Z.div_mod (n - 1) 3 ltac:(lia)). lia.
Qed.

Lemma lines_positions (p q r : Z) :
  (p, q, r) ∈ lines -> 1 <= p <= 9 /\ 1 <= q <= 9 /\ 1 <= r <= 9.
Proof.
  unfold lines. intros Hl.
  repeat (apply elem_of_cons in Hl as [[= -> -> ->]|Hl]; [lia|]).
  apply elem_of_nil in Hl. contradiction.
Qed.

(** A line completed by a placement goes through the cell just written. *)
Lemma new_line_is_movers (s s' : game) (n : Z) (l : Z * Z * Z) (w : string) :
  no_line (board s) -> placement s n s' -> l ∈ lines ->
  holds_three (board s') l = Some w -> w = current_player s.
Proof.
  intros Hno Hp Hl Hh. destruct l as [[p q] r].
  destruct (lines_positions p q r Hl) as (Hp1 & Hq1 & Hr1).
  destruct (placement_at s s' n Hp) as [Hat Hats].
  pose proof (Hno _ Hl) as Hold.
  pose proof Hh as Hh'. apply holds_three_fills in Hh' as [_ (Ep & Eq & Er)].
  destruct (Z.eq_dec p n) as [->|Np]; [congruence|].
  destruct (Z.eq_dec q n) as [->|Nq]; [congruence|].
  destruct (Z.eq_dec r n) as [->|Nr]; [congruence|].
  unfold holds_three in Hh, Hold.
  rewrite !Hats in Hh by assumption. congruence.
Qed.

Lemma no_line_reset : no_line (board reset_game).
Proof.
  intros l Hl. unfold lines in Hl.
  repeat (apply elem_of_cons in Hl as [->|Hl]; [reflexivity|]).
  apply elem_of_nil in Hl. contradiction.
Qed.

Lemma play_inv_start : play_inv start [].
Proof. repeat split. Qed.

Lemma check_win_cases (s : game) :
  wf s = true ->
  (check_win s = Ok None /\ no_line (board s) /\ available_moves s <> [])
  \/ (exists r, check_win s = Ok (Some r) /\ truthy (Some r) = true /\ decided s).
Proof.
  intros Hwf. pose proof (check_win_refines s Hwf) as Hcw.
  destruct (evaluate_inv s) as [(m & l & He & _ & Hh)|[(He & _)|(He & Hno & Hav)]];
    rewrite He in Hcw.
  - right. exists m. apply holds_three_mark, is_mark_spec in Hh.
    split; [assumption|]. split.
    + destruct Hh as [->| ->]; reflexivity.
    + exists m. tauto.
  - right. exists TIE_RESULT. split; [assumption|]. split; [reflexivity|].
    exists TIE_RESULT. auto.
  - left. auto.
Qed.

(** The part of the loop after a placement, on a board that had no
    complete line. *)
Lemma after_move_play (ai_mode : bool) (s s' : game) (n : Z) (next : game -> pc)
    (a : action) (c' : config) :
  wf s' = true -> no_line (board s) -> placement s n s' ->
  after_move ai_mode (current_player s) s' next = (a, c') ->
  a = Placed (current_player s)
  /\ (forall w, check_win s' = Ok (Some w) -> w <> TIE_RESULT -> w = current_player s)
  /\ (c' = (Rematch ai_mode, s') /\ decided s'
      \/ c' = (next (switch_player s'), switch_player s')
         /\ no_line (board s') /\ available_moves s' <> []).
Proof.
  intros Hwf' Hno Hp Hafter. unfold after_move in Hafter.
  assert (forall w, check_win s' = Ok (Some w) -> w <> TIE_RESULT -> w = current_player s)
    as Hwinner.
  { intros w Hw Hne.
    destruct (proj1 (check_win_sound s' Hwf') w Hw Hne) as (Hm & l & Hl & Hf).
    apply (new_line_is_movers s s' n l w Hno Hp Hl).
    destruct l as [[p q] r]. destruct Hf as (Ep & Eq & Er).
    unfold holds_three. now rewrite Ep, Eq, Er, Hm, String.eqb_refl. }
  destruct (check_win_cases s' Hwf') as [(Hc & Hno' & Hav)|(r & Hc & Ht & Hd)];
    rewrite Hc in Hafter.
  - cbn [truthy] in Hafter. injection Hafter as <- <-. auto 10.
  - rewrite Ht in Hafter. injection Hafter as <- <-. auto 10.
Qed.

(** Closes what is asked of a transition that places nothing and ends at
    a control point other than a crash. *)
Ltac quiet_rest :=
  split; [intros _ _ ?; discriminate
         |split; [intros ? ? [=]|intros ? [=]]].

Lemma step_play_inv `{Builtins} (c : config) (marks : list string) (e : event)
    (a : action) (c' : config) :
  play_inv c marks -> step c e = Some (a, c') ->
  play_inv c' (marks_of_game [a] marks)
  /\ (draw_ok c e = true -> (forall x, fst c <> Crashed x) ->
      forall x, fst c' <> Crashed x)
  /\ (forall m w, a = Placed m -> check_win (snd c') = Ok (Some w) ->
                  w <> TIE_RESULT -> w = m)
  /\ (forall m, a = Placed m -> m = current_player (snd c)).
Proof.
  intros Hinv Hstep. destruct c as [at_ s].
  pose proof Hinv as (Hwf & Hlen & Hat). cbn [fst snd] in *.
  pose proof (wf_moves_bound s Hwf) as Hbound.
  destruct at_ as [|ai_mode| |ai_mode| |x], e as [l|k]; try discriminate Hstep;
    cbn [step] in Hstep.
  - (* the question about the opponent *)
    subst s.
    destruct (get_yes_no_input_pass l); injection Hstep as <- <-;
      (split; [|quiet_rest]).
    + split; [reflexivity|]. split; [exact Hlen|]. split; [exact no_line_reset|reflexivity].
    + exact Hinv.
  - (* a line at the prompt for a move *)
    destruct Hat as [Hno Hx].
    destruct (get_user_move_pass_cases l s Hwf)
      as [[Hag _]|(n & s' & Hret & _ & Hmem & Hp & Hwf')].
    + rewrite Hag in Hstep. injection Hstep as <- <-.
      split; [exact Hinv|]. quiet_rest.
    + rewrite Hret in Hstep. injection Hstep as Hafter.
      destruct (after_move_play _ _ _ _ _ _ _ Hwf' Hno Hp Hafter)
        as (-> & Hwinner & Hnext).
      pose proof Hp as (_ & _ & _ & _ & _ & Hl' & Hcp').
      assert (length (marks ++ [current_player s])%list
              = (9 - length (available_moves s'))%nat) as Hlen'.
      { rewrite length_app. cbn. lia. }
      destruct Hnext as [[-> Hd]|(-> & Hno' & Hav)]; cbn [fst snd marks_of_game].
      * split; [repeat split; assumption|].
        split; [intros _ _ ?; discriminate|]. split; [|intros m [= <-]; reflexivity].
        intros m w [= <-]. apply Hwinner.
      * split; [|split; [|split; [|intros m [= <-]; reflexivity]]].
        -- split; [now apply switch_player_wf|]. split; [exact Hlen'|].
           cbn [switch_player available_moves board current_player].
           destruct ai_mode, (available_moves s') eqn:Eav; try contradiction;
             cbn [fst snd switch_player available_moves board current_player].
           ++ rewrite Eav. split; [assumption|]. split; [|discriminate].
              rewrite Hcp', (Hx eq_refl). reflexivity.
           ++ split; [assumption|discriminate].
        -- intros _ _ x. cbn [switch_player available_moves].
           destruct ai_mode, (available_moves s'); discriminate.
        -- intros m w [= <-]. cbn [switch_player]. intros Hw.
           apply Hwinner. rewrite <- Hw.
           unfold check_win. reflexivity.
  - (* the draw of the automated opponent *)
    destruct Hat as (Hno & Ho & Hne).
    destruct (get_ai_move_cases k s Hwf)
      as [[Hr Hnone]|(n & s' & Hok & Hk & Hp & Hwf')].
    + rewrite Hr in Hstep. injection Hstep as <- <-.
      split; [repeat split; assumption|]. split; [|split; [intros ? ? [=]|intros ? [=]]].
      unfold draw_ok. cbn [fst snd]. intros Hd. apply lookup_ge_None in Hnone.
      apply Nat.ltb_lt in Hd. lia.
    + rewrite Hok in Hstep. injection Hstep as Hafter.
      destruct (after_move_play _ _ _ _ _ _ _ Hwf' Hno Hp Hafter)
        as (-> & Hwinner & Hnext).
      pose proof Hp as (_ & _ & _ & _ & _ & Hl' & Hcp').
      assert (length (marks ++ [current_player s])%list
              = (9 - length (available_moves s'))%nat) as Hlen'.
      { rewrite length_app. cbn. lia. }
      destruct Hnext as [[-> Hd]|(-> & Hno' & Hav)]; cbn [fst snd marks_of_game].
      * split; [repeat split; assumption|].
        split; [intros _ _ ?; discriminate|]. split; [|intros m [= <-]; reflexivity].
        intros m w [= <-]. apply Hwinner.
      * split; [|split; [intros _ _ ?; discriminate|split; [|intros m [= <-]; reflexivity]]].
        -- split; [now apply switch_player_wf|]. split; [exact Hlen'|].
           cbn [fst snd switch_player available_moves board current_player].
           split; [assumption|]. intros _. rewrite Hcp', Ho. reflexivity.
        -- intros m w [= <-]. cbn [switch_player]. intros Hw.
           apply Hwinner. rewrite <- Hw. unfold check_win. reflexivity.
  - (* the question about another game *)
    destruct (get_yes_no_input_pass l) as [[|]|]; injection Hstep as <- <-;
      (split; [|quiet_rest]).
    + split; [reflexivity|]. split; [reflexivity|].
      split; [exact no_line_reset|reflexivity].
    + repeat split; assumption.
    + exact Hinv.
Qed.

Lemma run_play_inv `{Builtins} (es : list event) (c : config) (marks : list string)
    (acts : list action) (c' : config) :
  play_inv c marks -> run c es = Some (acts, c') ->
  play_inv c' (marks_of_game acts marks)
  /\ (draws_ok c es = true -> (forall x, fst c <> Crashed x) ->
      forall x, fst c' <> Crashed x).
Proof.
  revert c marks acts. induction es as [|e es IH]; intros c marks acts Hinv Hrun.
  - injection Hrun as <- <-. auto.
  - cbn [run] in Hrun. destruct (step c e) as [[a c1]|] eqn:Hstep; [|discriminate].
    destruct (run c1 es) as [[acts1 c2]|] eqn:Hrun1; [|discriminate].
    injection Hrun as <- <-. rewrite marks_of_game_cons.
    destruct (step_play_inv c marks e a c1 Hinv Hstep) as (Hinv1 & Hcrash & _).
    destruct (IH c1 _ acts1 Hinv1 Hrun1) as [Hinv2 Hcrash2].
    split; [exact Hinv2|].
    cbn [draws_ok]. rewrite Hstep. intros Hd Hc.
    apply andb_true_iff in Hd as [Hd1 Hd2]. auto.
Qed.


(** X14. [play] on a new object never ends in an exception other than the end
    of the input: whenever every draw is one [random.choice] can make, no
    control point is a crash; in particular the automated opponent is only
    asked to move while a move is left. *)
Theorem play_never_crashes `{Builtins} (es : list event) (acts : list action)
    (c : config) :
  run start es = Some (acts, c) -> draws_ok start es = true ->
  (forall x, fst c <> Crashed x)
  /\ (fst c = AIMove -> available_moves (snd c) <> []).
Proof.
  intros Hrun Hd.
  destruct (run_play_inv es start [] acts c play_inv_start Hrun) as [Hinv Hcrash].
  split; [apply Hcrash; [exact Hd|discriminate]|].
  destruct Hinv as (_ & _ & Hat). intros Hc. rewrite Hc in Hat. tauto.
Qed.

Lemma play_never_crashes_witness :
  exists acts s,
    @run ascii_builtins start [Line "y"; Line "5"; Rand 7; Line "1"] = Some (acts, (AIMove, s))
    /\ available_moves s <> [].
Proof.
  do 2 eexists. split; [reflexivity|].
  apply (proj2 (@play_never_crashes ascii_builtins
                  [Line "y"; Line "5"; Rand 7; Line "1"] _ _ eq_refl eq_refl)).
  reflexivity.
Defined.

(** X15. The winner that [check_win] reports after a placement is the mark
    just placed: along [play] on a new object nobody wins on the other
    player's move. *)
Theorem winner_moved_last `{Builtins} (es : list event) (acts : list action)
    (c : config) (e : event) (m w : string) (c' : config) :
  run start es = Some (acts, c) ->
  step c e = Some (Placed m, c') ->
  check_win (snd c') = Ok (Some w) -> w <> TIE_RESULT ->
  w = m /\ m = current_player (snd c).
Proof.
  intros Hrun Hstep Hw Hne.
  destruct (run_play_inv es start [] acts c play_inv_start Hrun) as [Hinv _].
  destruct (step_play_inv c _ e _ c' Hinv Hstep) as (_ & _ & Hwin & Hm).
  split; [eapply Hwin; eauto|auto].
Qed.

Lemma winner_moved_last_witness :
  exists acts c c',
    @run ascii_builtins start [Line "n"; Line "1"; Line "4"; Line "2"; Line "5"]
    = Some (acts, c)
    /\ @step ascii_builtins c (Line "3") = Some (Placed "X", c')
    /\ check_win (snd c') = Ok (Some "X").
Proof.
  do 3 eexists. split; [reflexivity|]. split; [reflexivity|].
  destruct (@winner_moved_last ascii_builtins
              [Line "n"; Line "1"; Line "4"; Line "2"; Line "5"] _ _ (Line "3") "X" "X" _
              eq_refl eq_refl eq_refl) as [_ _]; [discriminate|].
  reflexivity.
Defined.

(** X16. On a new object, in a session of [play] against the automated
    opponent the human always places X and the opponent always O, in every
    game of that session.  (On an object that an earlier session left with
    O to move this is not so, see [reused_object_human_o] below.) *)
Theorem human_x_opponent_o `{Builtins} (es : list event) (acts : list action)
    (c : config) :
  run start es = Some (acts, c) ->
  (fst c = UserMove true -> current_player (snd c) = PLAYER_X)
  /\ (fst c = AIMove -> current_player (snd c) = PLAYER_O)
  /\ (forall e m c', step c e = Some (Placed m, c') ->
        (fst c = UserMove true -> m = PLAYER_X)
        /\ (fst c = AIMove -> m = PLAYER_O)).
Proof.
  intros Hrun.
  destruct (run_play_inv es start [] acts c play_inv_start Hrun) as [Hinv _].
  pose proof Hinv as (_ & _ & Hat).
  assert (fst c = UserMove true -> current_player (snd c) = PLAYER_X) as Hx.
  { intros Hc. rewrite Hc in Hat. now apply Hat. }
  assert (fst c = AIMove -> current_player (snd c) = PLAYER_O) as Ho.
  { intros Hc. rewrite Hc in Hat. tauto. }
  split; [exact Hx|]. split; [exact Ho|].
  intros e m c' Hstep.
  destruct (step_play_inv c _ e _ c' Hinv Hstep) as (_ & _ & _ & Hm).
  rewrite (Hm m eq_refl). auto.
Qed.

Lemma human_x_opponent_o_witness :
  exists acts s,
    @run ascii_builtins start
      [Line "y"; Line "5"; Rand 0; Line "9"; Rand 0; Line "yes?"; Line "3"]
    = Some (acts, (AIMove, s))
    /\ acts = [Quiet; Placed "X"; Placed "O"; Placed "X"; Placed "O"; Quiet; Placed "X"]
    /\ current_player s = "O".
Proof.
  do 2 eexists. split; [reflexivity|]. split; [reflexivity|].
  apply (proj1 (proj2 (@human_x_opponent_o ascii_builtins
           [Line "y"; Line "5"; Rand 0; Line "9"; Rand 0; Line "yes?"; Line "3"]
           _ _ eq_refl))).
  reflexivity.
Defined.

(** A first session without the automated opponent that O wins leaves O as
    the player to move; a second call of [play] on that object, this time
    against the automated opponent, lets the human place O. *)
Example reused_object_human_o :
  exists acts s acts' c,
    @run ascii_builtins start
      [Line "n"; Line "1"; Line "4"; Line "2"; Line "5"; Line "7"; Line "6"; Line "no"]
    = Some (acts, (Finished, s))
    /\ current_player s = "O"
    /\ @run ascii_builtins (resume s) [Line "y"; Line "3"] = Some (acts', c)
    /\ acts' = [Quiet; Placed "O"].
Proof. do 4 eexists. repeat split. Qed.

(** X17. The marks placed since the board was fresh are as many as the cells
    taken: a game has at most nine placements. *)
Theorem placements_count `{Builtins} (es : list event) (acts : list action)
    (c : config) :
  run start es = Some (acts, c) ->
  (length (marks_of_game acts []) + length (available_moves (snd c)) = 9)%nat.
Proof.
  intros Hrun.
  destruct (run_play_inv es start [] acts c play_inv_start Hrun) as [(Hwf & Hlen & _) _].
  pose proof (wf_moves_bound _ Hwf). lia.
Qed.

Lemma placements_count_witness :
  exists acts c,
    @run ascii_builtins start [Line "n"; Line "1"; Line "1"; Line "2"] = Some (acts, c)
    /\ (length (marks_of_game acts []) + length (available_moves (snd c)) = 9)%nat.
Proof.
  do 2 eexists. split; [reflexivity|].
  exact (@placements_count ascii_builtins [Line "n"; Line "1"; Line "1"; Line "2"]
           _ _ eq_refl).
Defined.

Lemma resume_stuck `{Builtins} (s : game) (es : list event) :
  available_moves s = [] ->
  forall at_ acts c,
    at_ = AskAI \/ (exists ai_mode, at_ = UserMove ai_mode) ->
    run (at_, s) es = Some (acts, c) ->
    snd c = s
    /\ (fst c = AskAI \/ exists ai_mode, fst c = UserMove ai_mode)
    /\ Forall (fun a => a = Quiet) acts.
Proof.
  intros Hav. induction es as [|e es IH]; intros at_ acts c Hat Hrun.
  - injection Hrun as <- <-. auto.
  - cbn [run] in Hrun.
    destruct (step (at_, s) e) as [[a c1]|] eqn:Hstep; [|discriminate].
    destruct (run c1 es) as [[acts1 c2]|] eqn:Hrun1; [|discriminate].
    injection Hrun as <- <-.
    assert (a = Quiet /\ snd c1 = s
            /\ (fst c1 = AskAI \/ exists ai_mode, fst c1 = UserMove ai_mode)) as (-> & Hs & Hc).
    { destruct Hat as [->|[ai_mode ->]]; destruct e as [l|k]; try discriminate Hstep.
      - cbn [step] in Hstep.
        destruct (get_yes_no_input_pass l); injection Hstep as <- <-; eauto.
      - rewrite (proj2 (get_user_move_no_moves s [] Hav)) in Hstep.
        injection Hstep as <- <-. eauto. }
    destruct c1 as [at1 s1]. cbn [fst snd] in Hs, Hc. subst s1.
    destruct (IH at1 acts1 _ Hc Hrun1) as (H1 & H2 & H3). auto.
Qed.

(** X18. [play] ends only on a decided board, and nothing resets the board
    before the next call of [play] on the same object: when the game that
    ended had filled the board, the next call can neither place a mark nor
    end, whatever is typed. *)
Theorem finished_game_is_kept `{Builtins} :
  (forall es acts s, run start es = Some (acts, (Finished, s)) -> decided s)
  /\ (forall s es acts c,
        available_moves s = [] ->
        run (resume s) es = Some (acts, c) ->
        snd c = s
        /\ (fst c = AskAI \/ exists ai_mode, fst c = UserMove ai_mode)
        /\ Forall (fun a => a = Quiet) acts).
Proof.
  split.
  - intros es acts s Hrun.
    destruct (run_play_inv es start [] acts _ play_inv_start Hrun) as [(_ & _ & Hat) _].
    exact Hat.
  - intros s es acts c Hav Hrun.
    apply (resume_stuck s es Hav AskAI acts c); [now left|exact Hrun].
Qed.

Lemma finished_game_is_kept_witness :
  exists acts acts',
    @run ascii_builtins start
      [Line "n"; Line "1"; Line "2"; Line "3"; Line "5"; Line "4"; Line "6";
       Line "8"; Line "7"; Line "9"; Line "no"]
    = Some (acts, (Finished, drawn_board))
    /\ decided drawn_board
    /\ @run ascii_builtins (resume drawn_board) [Line "n"; Line "1"; Line "9"; Line "no"]
       = Some (acts', (UserMove false, drawn_board)).
Proof.
  do 2 eexists. split; [reflexivity|]. split.
  - exact (proj1 (@finished_game_is_kept ascii_builtins)
             [Line "n"; Line "1"; Line "2"; Line "3"; Line "5"; Line "4"; Line "6";
              Line "8"; Line "7"; Line "9"; Line "no"] _ drawn_board eq_refl).
  - destruct (proj2 (@finished_game_is_kept ascii_builtins) drawn_board
                [Line "n"; Line "1"; Line "9"; Line "no"] _ _ eq_refl eq_refl)
      as (Hs & _ & _).
    reflexivity.
Defined.

End TicTacToeExtraProps.

(** ** More properties of the choice game *)

Module RockPaperScissorsExtraProps.
Import Python RockPaperScissors RockPaperScissorsExtra RockPaperScissorsProps.

Lemma credited_lookup (o : outcome) (sc sc' : gmap string Z) (v1 v2 : Z) :
  credited o sc sc' ->
  sc !! "Player 1" = Some v1 -> sc !! "Player 2" = Some v2 ->
  sc' !! "Player 1" = Some (v1 + rounds Player1Wins [Resolved o ""])
  /\ sc' !! "Player 2" = Some (v2 + rounds Player2Wins [Resolved o ""]).
Proof.
  intros Hc H1 H2. destruct o; cbn in *.
  - subst sc'. rewrite H1, H2. split; f_equal; lia.
  - destruct Hc as (v & Hv & ->). assert (v = v1) as -> by congruence.
    rewrite lookup_insert_eq, lookup_insert_ne by discriminate.
    rewrite H2. split; f_equal; lia.
  - destruct Hc as (v & Hv & ->). assert (v = v2) as -> by congruence.
    rewrite lookup_insert_eq, lookup_insert_ne by discriminate.
    rewrite H1. split; f_equal; lia.
Qed.

Lemma run_scores `{Builtins} (es : list event) :
  forall (c : config) (acts : list action) (c' : config) (v1 v2 : Z),
  scores (snd c) !! "Player 1" = Some v1 -> scores (snd c) !! "Player 2" = Some v2 ->
  run c es = Some (acts, c') ->
  scores (snd c') !! "Player 1" = Some (v1 + rounds Player1Wins acts)
  /\ scores (snd c') !! "Player 2" = Some (v2 + rounds Player2Wins acts).
Proof.
  induction es as [|e es IH]; intros c acts c' v1 v2 H1 H2 Hrun.
  - injection Hrun as <- <-. cbn. rewrite !Z.add_0_r. auto.
  - cbn [run] in Hrun. destruct (step c e) as [[a c1]|] eqn:Hstep; [|discriminate].
    destruct (run c1 es) as [[acts1 c2]|] eqn:Hrun1; [|discriminate].
    injection Hrun as <- <-.
    apply step_score in Hstep. destruct a as [o message|]; cbn in Hstep.
    + destruct Hstep as [Hc _].
      destruct (credited_lookup o _ _ v1 v2 Hc H1 H2) as [H1' H2'].
      destruct (IH c1 acts1 _ _ _ H1' H2' Hrun1) as [-> ->].
      cbn [rounds] in *. split; f_equal; lia.
    + rewrite <- Hstep in H1, H2.
      destruct (IH c1 acts1 _ _ _ H1 H2 Hrun1) as [-> ->]. auto.
Qed.

(** X19. Each score is the number of rounds of the session that its player
    has won: a tie counts for neither. *)
Theorem scores_count_wins `{Builtins} (es : list event) (acts : list action)
    (c : config) :
  run start es = Some (acts, c) ->
  scores (snd c) !! "Player 1" = Some (rounds Player1Wins acts)
  /\ scores (snd c) !! "Player 2" = Some (rounds Player2Wins acts).
Proof.
  intros Hrun. exact (run_scores es start acts c 0 0 eq_refl eq_refl Hrun).
Qed.

Lemma scores_count_wins_witness :
  exists acts c,
    @run ascii_builtins start
      [Line "2"; Line "1"; Line "4"; Line "1";
       Line "rock"; Rand 2; Line ""; Line "p"; Line "2"; Rand 1; Line ""; Line "1";
       Line "s"; Rand 0]
    = Some (acts, c)
    /\ scores (snd c) !! "Player 1" = Some 1
    /\ scores (snd c) !! "Player 2" = Some 1.
Proof.
  do 2 eexists. split; [reflexivity|].
  exact (@scores_count_wins ascii_builtins
           [Line "2"; Line "1"; Line "4"; Line "1";
            Line "rock"; Rand 2; Line ""; Line "p"; Line "2"; Rand 1; Line ""; Line "1";
            Line "s"; Rand 0] _ _ eq_refl).
Defined.

Lemma scores_ok_has (g : game) : scores_ok g -> has_scores g.
Proof. intros (v1 & v2 & H1 & H2 & _). split; eauto. Qed.

Lemma print_scores_ok (g : game) : has_scores g -> exists out, print_scores g = Ok out.
Proof.
  intros [[v1 H1] [v2 H2]]. unfold print_scores, score. rewrite H1, H2. cbn. eauto.
Qed.

Lemma resolve_round_ok (g : game) (c1 c2 : string) :
  has_scores g ->
  exists o message g', resolve_round g c1 c2 = Ok (o, message, g') /\ has_scores g'.
Proof.
  intros Hs. pose proof Hs as [[v1 H1] [v2 H2]].
  unfold resolve_round, add_score, score.
  destruct (String.eqb c1 c2); [eauto 10|].
  destruct (bool_decide _); [rewrite H1|rewrite H2]; cbn [bind];
    do 3 eexists; (split; [reflexivity|]); unfold has_scores; cbn [scores set_scores].
  - rewrite lookup_insert_eq, lookup_insert_ne by discriminate. eauto.
  - rewrite lookup_insert_eq, lookup_insert_ne by discriminate. eauto.
Qed.

Lemma step_no_crash `{Builtins} (c : config) (e : event) (a : action) (c' : config) :
  has_scores (snd c) -> step c e = Some (a, c') ->
  (forall x, fst c <> Crashed x) -> forall x, fst c' <> Crashed x.
Proof.
  destruct c as [at_ g]. cbn [fst snd]. intros Hs Hstep _ x.
  destruct (print_scores_ok g Hs) as [out Hout].
  assert (forall c1 c2 a c', finish_round g c1 c2 = (a, c') -> fst c' <> Crashed x) as Hfin.
  { intros c1 c2 a0 c0. unfold finish_round.
    destruct (resolve_round_ok g c1 c2 Hs) as (o & message & g' & -> & Hs').
    destruct (print_scores_ok g' Hs') as [out' ->]. intros [= <- <-]. discriminate. }
  unfold step, pre_game, second_choice, after_game_menu in Hstep. rewrite ?Hout in Hstep.
  destruct at_, e as [l|k]; try discriminate Hstep;
    repeat match type of Hstep with
      | context [if ?b then _ else _] => destruct b
      | context [match ?x with Some _ => _ | None => _ end] => destruct x eqn:?
      end;
    try discriminate Hstep; injection Hstep as Hstep;
    try (injection Hstep as <- <-; discriminate);
    try (subst c'; discriminate); eapply Hfin; eauto.
Qed.

(** X20. Along [play] on a new object both score keys are present in every
    state reached, so neither the increment of a score in [play_round] nor
    the two lookups of [print_scores] raise [KeyError]; the control point
    that stands for such an exception is never reached.  (The depth of the
    Python call stack is outside the model, and nothing is said of it.) *)
Theorem score_keys_always_present `{Builtins} (es : list event) (acts : list action)
    (c : config) :
  run start es = Some (acts, c) ->
  has_scores (snd c)
  /\ (exists out, print_scores (snd c) = Ok out)
  /\ (forall c1 c2, exists o message g',
        resolve_round (snd c) c1 c2 = Ok (o, message, g') /\ has_scores g')
  /\ (forall x, fst c <> Crashed x).
Proof.
  intros Hrun.
  assert (forall es c0 acts c,
            scores_ok (snd c0) -> (forall x, fst c0 <> Crashed x) ->
            run c0 es = Some (acts, c) -> forall x, fst c <> Crashed x) as Hgen.
  { clear. intros es. induction es as [|e es IH]; intros c0 acts c Hok Hc Hrun.
    - injection Hrun as <- <-. exact Hc.
    - cbn [run] in Hrun. destruct (step c0 e) as [[a c1]|] eqn:Hstep; [|discriminate].
      destruct (run c1 es) as [[acts1 c2]|] eqn:Hrun1; [|discriminate].
      injection Hrun as <- <-. eapply IH; [| |exact Hrun1].
      + apply (run_scores_ok [e] c0 [a] c1 Hok). cbn [run]. now rewrite Hstep.
      + eapply step_no_crash; eauto. now apply scores_ok_has. }
  assert (scores_ok (snd start)) as Hok by (exists 0, 0; repeat split; lia).
  assert (has_scores (snd c)) as Hs
    by (apply scores_ok_has; eapply run_scores_ok; eauto).
  split; [exact Hs|]. split; [now apply print_scores_ok|].
  split; [intros c1 c2; now apply resolve_round_ok|].
  eapply Hgen; [exact Hok| |exact Hrun]. discriminate.
Qed.

Lemma score_keys_always_present_witness :
  exists acts c,
    @run ascii_builtins start [Line "n"; Line "Ann"; Line ""; Line "3"; Rand 0; Line "ok"]
    = Some (acts, c)
    /\ fst c = PostRound /\ has_scores (snd c)
    /\ scores (snd c) !! "Player 2" = Some 1.
Proof.
  do 2 eexists. split; [reflexivity|]. split; [reflexivity|]. split; [|reflexivity].
  exact (proj1 (@score_keys_always_present ascii_builtins
                  [Line "n"; Line "Ann"; Line ""; Line "3"; Rand 0; Line "ok"]
                  _ _ eq_refl)).
Defined.

Lemma valid_choices_range (k v : string) :
  valid_choices !! k = Some v -> v ∈ choices /\ k ∉ menu_choices.
Proof.
  unfold valid_choices. intros Hk. apply elem_of_list_to_map_2 in Hk.
  repeat (apply elem_of_cons in Hk as [[= -> ->]|Hk];
          [split; [repeat constructor|apply (proj1 (bool_decide_eq_false _)); reflexivity]|]).
  apply elem_of_nil in Hk. contradiction.
Qed.

Lemma step_choice_held `{Builtins} (c : config) (e : event) (a : action) (c' : config) :
  step c e = Some (a, c') -> choice_held (fst c) -> choice_held (fst c').
Proof.
  destruct c as [at_ g]. cbn [fst]. intros Hstep Hheld.
  unfold step, pre_game, second_choice, after_game_menu, finish_round in Hstep.
  destruct at_, e as [l|k]; try discriminate Hstep;
    repeat match type of Hstep with
      | context [if ?b then _ else _] => destruct b
      | context [match ?x with Some _ => _ | None => _ end] => destruct x eqn:?
      | context [match ?x with Ok _ => _ | Raise _ => _ end] => destruct x as [[[? ?] ?]|?]
      | context [match print_scores ?g with Ok _ => _ | Raise _ => _ end] =>
          destruct (print_scores g)
      end;
    try discriminate Hstep; injection Hstep as <- <-; cbn; auto;
    eapply valid_choices_range; eauto.
Qed.

Lemma run_choice_held `{Builtins} (es : list event) :
  forall (c0 : config) (acts : list action) (c : config),
  choice_held (fst c0) -> run c0 es = Some (acts, c) -> choice_held (fst c).
Proof.
  induction es as [|e es IH]; intros c0 acts c H0 Hrun.
  - injection Hrun as <- <-. exact H0.
  - cbn [run] in Hrun. destruct (step c0 e) as [[a c1]|] eqn:Hstep; [|discriminate].
    destruct (run c1 es) as [[acts1 c2]|] eqn:Hrun1; [|discriminate].
    injection Hrun as <- <-. eapply IH; [|exact Hrun1].
    eapply step_choice_held; eauto.
Qed.

(** X21. Every round that [play] resolves is between two of rock, paper and
    scissors, and they are the choices made: the choice kept for participant
    1 is what the table of aliases gives for the line typed at the first
    prompt, the second choice is what the table gives for the line typed at
    the second prompt or the element of rock, paper, scissors that was
    drawn, and the outcome, the announcement and the object after the round
    are those of the winner-determining branch on that pair. *)
Theorem rounds_between_choices `{Builtins} (es : list event) (acts : list action)
    (c : config) :
  run start es = Some (acts, c) ->
  choice_held (fst c)
  /\ (forall l a c' c1,
        fst c = Choice1 -> step c (Line l) = Some (a, c') ->
        fst c' = Choice2 c1 \/ fst c' = BotDraw c1 ->
        valid_choices !! py_strip (py_lower l) = Some c1
        /\ c1 ∈ choices /\ snd c' = snd c)
  /\ (forall e o message c',
        step c e = Some (Resolved o message, c') ->
        exists c1 c2,
          c1 ∈ choices /\ c2 ∈ choices
          /\ (fst c = Choice2 c1
              /\ (exists l, e = Line l
                            /\ valid_choices !! py_strip (py_lower l) = Some c2)
              \/ fst c = BotDraw c1
                 /\ (exists k, e = Rand k
                               /\ [ROCK; PAPER; SCISSORS] !! k = Some c2))
          /\ resolve_round (snd c) c1 c2 = Ok (o, message, snd c')).
Proof.
  intros Hrun.
  pose proof (run_choice_held es start acts c I Hrun) as Hheld.
  split; [exact Hheld|]. split.
  - intros l a c' c1 Hat Hstep Hnext. destruct c as [at_ g]. cbn [fst snd] in *.
    subst at_. cbn [step] in Hstep. unfold second_choice in Hstep.
    destruct (valid_choices !! py_strip (py_lower l)) as [p|] eqn:Hv.
    + destruct (two_player_mode g); injection Hstep as <- <-; cbn [fst snd] in *;
        destruct Hnext as [[= <-]|[= <-]];
        (split; [reflexivity|]); (split; [eapply valid_choices_range; exact Hv|reflexivity]).
    + destruct (among _ _); injection Hstep as <- <-;
        destruct Hnext as [Hx|Hx]; discriminate Hx.
  - intros e o message c' Hstep. destruct c as [at_ g]. cbn [fst snd] in *.
    unfold step in Hstep.
    destruct at_, e as [l|k]; try discriminate Hstep;
      unfold pre_game, second_choice, after_game_menu in Hstep;
      repeat match type of Hstep with
        | context [if ?b then _ else _] => destruct b
        | context [match ?x with Some _ => _ | None => _ end] => destruct x eqn:?
        | context [match print_scores ?g with Ok _ => _ | Raise _ => _ end] =>
            destruct (print_scores g)
        end;
      try discriminate Hstep; injection Hstep as Hstep.
    all: match goal with
         | Hv : valid_choices !! _ = Some ?s |- _ =>
             exists player1_choice, s; split; [exact Hheld|];
             split; [eapply valid_choices_range; exact Hv|];
             split; [left; split; [reflexivity|];
                     eexists; split; [reflexivity|exact Hv]|]
         | Hv : _ !! _ = Some ?s |- _ =>
             exists player1_choice, s; split; [exact Hheld|];
             split; [eapply list_elem_of_lookup_2; exact Hv|];
             split; [right; split; [reflexivity|];
                     eexists; split; [reflexivity|exact Hv]|]
         end;
      unfold finish_round in Hstep;
      match type of Hstep with
      | context [resolve_round ?g ?a ?b] =>
          destruct (resolve_round g a b) as [[[o' m'] g']|x]; [|discriminate]
      end;
      destruct (print_scores g'); injection Hstep as <- <- <-; reflexivity.
Qed.

Lemma rounds_between_choices_witness :
  exists acts g g',
    @run ascii_builtins start [Line "s"; Line "t"; Line "n"; Line "b"; Line "n"; Line "P"]
    = Some (acts, (Choice2 PAPER, g))
    /\ @step ascii_builtins (Choice2 PAPER, g) (Line " Rock")
       = Some (Resolved Player1Wins "Player 1 wins!", (RoundPause, g'))
    /\ resolve_round g PAPER ROCK = Ok (Player1Wins, "Player 1 wins!", g').
Proof.
  do 3 eexists. split; [reflexivity|]. split; [reflexivity|].
  destruct (proj2 (proj2 (@rounds_between_choices ascii_builtins
                     [Line "s"; Line "t"; Line "n"; Line "b"; Line "n"; Line "P"]
                     _ _ eq_refl)) (Line " Rock") Player1Wins "Player 1 wins!" _ eq_refl)
    as (c1 & c2 & _ & _ & [([= <-] & l & [= <-] & Hv)|(Hx & _)] & Hr).
  - injection Hv as <-. exact Hr.
  - discriminate Hx.
Defined.

Lemma settings_toggle_names `{Builtins} (g : game) (line : string) :
  py_strip (py_lower line) ∈ ["1"; "require names"; "n"] ->
  step (Settings, g) (Line line) = Some (Quiet, (Settings, toggle_require_names g)).
Proof. intros Hin. cbn [step]. menu_in Hin. Qed.

Lemma settings_toggle_mode `{Builtins} (g : game) (line : string) :
  py_strip (py_lower line) ∈ ["2"; "two player mode"; "t"] ->
  step (Settings, g) (Line line) = Some (Quiet, (Settings, toggle_two_player_mode g)).
Proof. intros Hin. cbn [step]. menu_in Hin. Qed.

(** X22. Switching the two-player mode on and toggling the requirement of
    names give the same two flags in either order, but not the same name
    for participant 2: the name follows the flags as they were at the
    moment the mode was toggled, so exactly one order gives "Player 2", and
    switching the mode on last gives it exactly when names end up not
    required. *)
Theorem toggle_order `{Builtins} (g : game) (names_line mode_line : string) :
  py_strip (py_lower names_line) ∈ ["1"; "require names"; "n"] ->
  py_strip (py_lower mode_line) ∈ ["2"; "two player mode"; "t"] ->
  two_player_mode g = false ->
  exists ga gb,
    run (Settings, g) [Line mode_line; Line names_line]
    = Some ([Quiet; Quiet], (Settings, ga))
    /\ run (Settings, g) [Line names_line; Line mode_line]
       = Some ([Quiet; Quiet], (Settings, gb))
    /\ two_player_mode ga = true /\ two_player_mode gb = true
    /\ require_names ga = require_names gb
    /\ scores ga = scores gb /\ player1_name ga = player1_name gb
    /\ (player2_name ga = "Player 2" <-> player2_name gb = "The Bot")
    /\ (player2_name ga = "The Bot" <-> player2_name gb = "Player 2")
    /\ (player2_name gb = "Player 2" <-> require_names gb = false).
Proof.
  intros Hn Hm Htwo.
  exists (toggle_require_names (toggle_two_player_mode g)),
         (toggle_two_player_mode (toggle_require_names g)).
  cbn [run].
  rewrite (settings_toggle_mode g mode_line Hm).
  rewrite (settings_toggle_names _ names_line Hn).
  rewrite (settings_toggle_names g names_line Hn).
  rewrite (settings_toggle_mode _ mode_line Hm).
  split; [reflexivity|]. split; [reflexivity|].
  unfold toggle_require_names, toggle_two_player_mode. cbn. rewrite Htwo. cbn.
  destruct (require_names g); cbn; repeat split; intros; try reflexivity; discriminate.
Qed.

Lemma toggle_order_witness :
  exists ga gb,
    @run ascii_builtins (Settings, init) [Line "2"; Line "1"]
    = Some ([Quiet; Quiet], (Settings, ga))
    /\ @run ascii_builtins (Settings, init) [Line "1"; Line "2"]
       = Some ([Quiet; Quiet], (Settings, gb))
    /\ require_names ga = false /\ require_names gb = false
    /\ player2_name ga = "The Bot" /\ player2_name gb = "Player 2".
Proof.
  destruct (@toggle_order ascii_builtins init "1" "2")
    as (ga & gb & Ha & Hb & _ & _ & Hr & _ & _ & _ & Hab & Hbn).
  - vm_compute. repeat constructor.
  - vm_compute. repeat constructor.
  - reflexivity.
  - exists ga, gb. split; [exact Ha|]. split; [exact Hb|].
    injection Ha as <-. injection Hb as <-. repeat split.
Defined.

(** X23. The second human prompt belongs to the two-player mode and the draw
    to the one-player mode: along [play] the mode cannot change between
    the two choices of a round. *)
Theorem second_choice_mode `{Builtins} (es : list event) (acts : list action)
    (c : config) :
  run start es = Some (acts, c) ->
  (forall player1_choice, fst c = Choice2 player1_choice ->
                          two_player_mode (snd c) = true)
  /\ (forall player1_choice, fst c = BotDraw player1_choice ->
                             two_player_mode (snd c) = false)
  /\ (fst c = NameP2 -> two_player_mode (snd c) = true).
Proof.
  assert (forall c e a c', mode_held c -> step c e = Some (a, c') -> mode_held c')
    as Hstep.
  { intros [at_ g] e a c' Hi Hs. unfold mode_held in *. cbn [fst snd] in Hi.
    unfold step, pre_game, second_choice, after_game_menu, finish_round in Hs.
    destruct at_, e as [l|k]; try discriminate Hs;
      repeat match type of Hs with
        | context [if two_player_mode ?g then _ else _] =>
            destruct (two_player_mode g) eqn:?
        | context [if ?b then _ else _] => destruct b
        | context [match ?x with Some _ => _ | None => _ end] => destruct x eqn:?
        | context [match ?x with Ok _ => _ | Raise _ => _ end] => destruct x as [[[? ?] ?]|?]
        | context [match print_scores ?g with Ok _ => _ | Raise _ => _ end] =>
            destruct (print_scores g)
        end;
      try discriminate Hs; injection Hs as <- <-; cbn; auto. }
  assert (forall es c0 acts c,
            mode_held c0 -> run c0 es = Some (acts, c) -> mode_held c) as Hrun.
  { clear -Hstep. intros es. induction es as [|e es IH]; intros c0 acts c H0 Hr.
    - injection Hr as <- <-. exact H0.
    - cbn [run] in Hr. destruct (step c0 e) as [[a c1]|] eqn:Hs; [|discriminate].
      destruct (run c1 es) as [[acts1 c2]|] eqn:Hr1; [|discriminate].
      injection Hr as <- <-. eapply IH; [|exact Hr1]. eapply Hstep; eauto. }
  intros Hr. pose proof (Hrun es start acts c I Hr) as Hi. unfold mode_held in Hi.
  repeat split; intros; match goal with Hc : fst c = _ |- _ => rewrite Hc in Hi end;
    exact Hi.
Qed.

Lemma second_choice_mode_witness :
  exists acts g,
    @run ascii_builtins start [Line "s"; Line "t"; Line "n"; Line "b"; Line "n"; Line "P"]
    = Some (acts, (Choice2 PAPER, g))
    /\ two_player_mode g = true.
Proof.
  do 2 eexists. split; [reflexivity|].
  exact (proj1 (@second_choice_mode ascii_builtins
                  [Line "s"; Line "t"; Line "n"; Line "b"; Line "n"; Line "P"]
                  _ _ eq_refl) PAPER eq_refl).
Defined.

End RockPaperScissorsExtraProps.
